(** * BibleMemorizer: recitation scoring and progress aggregation

    A shallow embedding of the scoring/aggregation core of the Flask
    application: [normalize_string] and [process_recitation_errors] from
    [routes/api.py], [RecitationAttempt.create] and
    [StudentProgress.update_progress] from [models/verse.py], the handler
    [submit_recitation] and the summary computed by [get_my_progress].

    Conventions of the embedding.
    - Text is a list of characters, one [ascii] per code point, so the
      modelled strings are those over code points 0..255 (Latin-1).  Case
      mapping and the white-space class are Python's on that range.
    - A score is the number the request carries, kept as the rational [Q]
      it denotes; the pass test [score >= 90] is the order of [Q].
    - The arithmetic of [get_my_progress] is Python's on [float], that is
      IEEE 754 binary64: Rocq's primitive [float], with [sum] adding from
      the left, one rounding per addition, and [round(x, 1)] rounding the
      exact value of [x] to one decimal (ties to even) and returning the
      nearest [float].
    - The SQLite database is an explicit state record threaded through the
      functions; a clock reading [now] is an argument of whatever reads
      the clock.
    - A Python exception that nothing catches is an outcome of its own:
      [raised] next to [returned].  What was committed before it stays in
      the database. *)

From Stdlib Require Import ZArith QArith Qround Qminmax Qabs Lqa Ascii String List Bool Lia.
From Stdlib Require Import Floats.
From stdpp Require Import base option list gmap.
Import ListNotations.

Local Open Scope Z_scope.

(* ===================================================================== *)
(** ** Text *)
(* ===================================================================== *)

Module Text.

Abbreviation str := (list ascii) (only parsing).

(** A literal. *)
Definition lit (s : string) : str := list_ascii_of_string s.

Definition code (c : ascii) : N := N_of_ascii c.

Definition between (lo hi n : N) : bool := ((lo <=? n) && (n <=? hi))%N.

(** [str.lower()] on one code point below 256: A-Z, and U+00C0..U+00DE
    except the multiplication sign U+00D7, move up by 32. *)
Definition lower_char (c : ascii) : ascii :=
  let n := code c in
  if between 65 90 n || (between 192 222 n && negb (n =? 215)%N)
  then ascii_of_N (n + 32) else c.

Definition lower (s : str) : str := map lower_char s.

(** [str.isspace()] on one code point below 256. *)
Definition is_space (c : ascii) : bool :=
  let n := code c in
  between 9 13 n || between 28 32 n || (n =? 133)%N || (n =? 160)%N.

Fixpoint lstrip (s : str) : str :=
  match s with
  | c :: r => if is_space c then lstrip r else s
  | [] => []
  end.

Definition rstrip (s : str) : str := reverse (lstrip (reverse s)).

(** [str.strip()] *)
Definition strip (s : str) : str := rstrip (lstrip s).

(** The character class of the regular expression in [normalize_string],
    by code point and in the order of the source: full stop, comma,
    slash, hash, exclamation mark, dollar, percent, caret, ampersand,
    asterisk, semicolon, colon, braces, equals, underscore, backtick,
    tilde, parentheses, double quote, apostrophe, double quote (twice),
    U+00E2, U+20AC, U+201D and the question mark.  The two members above
    255 never occur in the modelled text. *)
Definition punctuation : list N :=
  [46; 44; 47; 35; 33; 36; 37; 94; 38; 42; 59; 58; 123; 125; 61; 95; 96;
   126; 40; 41; 34; 39; 34; 34; 226; 8364; 8221; 63]%N.

Definition is_punctuation (c : ascii) : bool :=
  existsb (N.eqb (code c)) punctuation.

(** [re.sub(r'[...]', '', s)] *)
Definition re_sub_punctuation (s : str) : str :=
  filter (fun c => is_punctuation c = false) s.

Definition hyphen : ascii := ascii_of_N 45.
Definition space : ascii := ascii_of_N 32.

(** [s.replace('-', ' ')] *)
Definition replace_hyphen (s : str) : str :=
  map (fun c => if bool_decide (c = hyphen) then space else c) s.

(** [s.replace('  ', ' ')]: one left-to-right pass over non-overlapping
    occurrences. *)
Fixpoint replace_two_spaces (s : str) : str :=
  match s with
  | [] => []
  | c :: r =>
      match r with
      | d :: r' =>
          if bool_decide (c = space) && bool_decide (d = space)
          then space :: replace_two_spaces r'
          else c :: replace_two_spaces r
      | [] => [c]
      end
  end.

(** [normalize_string(text)] *)
Definition normalize_string (text : str) : str :=
  replace_two_spaces
    (replace_hyphen (re_sub_punctuation (strip (lower text)))).

(** [s.split()]: maximal runs of non-white-space characters. *)
Fixpoint split_from (word : str) (s : str) : list str :=
  match s with
  | [] => match word with [] => [] | _ => [word] end
  | c :: r =>
      if is_space c
      then match word with [] => split_from [] r | _ => word :: split_from [] r end
      else split_from (word ++ [c]) r
  end.

Definition split (s : str) : list str := split_from [] s.

(** [sep.join(words)] *)
Fixpoint join (sep : str) (words : list str) : str :=
  match words with
  | [] => []
  | w :: rest =>
      match rest with
      | [] => w
      | _ => w ++ sep ++ join sep rest
      end
  end.

(** [words[lo:hi]] for [0 <= lo]. *)
Definition slice {A} (l : list A) (lo hi : Z) : list A :=
  take (Z.to_nat (hi - lo)) (drop (Z.to_nat lo) l).

End Text.

Import Text.

(* ===================================================================== *)
(** ** Numbers *)
(* ===================================================================== *)

Definition Qgtb (a b : Q) : bool := negb (Qle_bool a b).
Definition Qltb (a b : Q) : bool := negb (Qle_bool b a).
Definition Qgeb (a b : Q) : bool := Qle_bool b a.

(** [max(a, b)]: the second argument replaces the first only when it is
    strictly greater. *)
Definition py_max (a b : Q) : Q := if Qgtb b a then b else a.

(** [x or 0] for a nullable numeric column. *)
Definition or0 (x : option Q) : Q :=
  match x with
  | Some v => if Qeq_bool v 0 then 0%Q else v
  | None => 0%Q
  end.

(** Nearest integer, ties to the even one. *)
Definition round_half_even (x : Q) : Z :=
  let f := Qfloor x in
  match (x - inject_Z f ?= 1 # 2)%Q with
  | Lt => f
  | Gt => f + 1
  | Eq => if Z.even f then f else f + 1
  end.

(** A count used as a number. *)
Definition Qnat (n : nat) : Q := inject_Z (Z.of_nat n).

(** *** binary64 *)

(** The [float] nearest to a rational (ties to even): how a number of the
    request or of a table is held in a Python [float], and the value of
    the true division [a / b] of two integers. *)
Definition float_of_Q (q : Q) : float :=
  match Qnum q with
  | Z0 => 0%float
  | Zpos n =>
      SF2Prim (SFdiv prec emax (S754_finite false n 0)
                 (S754_finite false (Qden q) 0))
  | Zneg n =>
      SF2Prim (SFdiv prec emax (S754_finite true n 0)
                 (S754_finite false (Qden q) 0))
  end.

(** The rational a finite [float] with sign [s], mantissa [m] and
    exponent [e] stands for. *)
Definition Q_of_finite (s : bool) (m : positive) (e : Z) : Q :=
  (inject_Z (if s then Z.neg m else Z.pos m) * 2 ^ e)%Q.

(** [round(x, 1)] on a [float]: the exact value of [x] is rounded to a
    whole number of tenths, ties to even, and the [float] nearest to that
    decimal is returned, a zero keeping the sign of [x]; zeros,
    infinities and nan are returned as they are. *)
Definition py_round1 (x : float) : float :=
  match Prim2SF x with
  | S754_finite s m e =>
      match round_half_even (Q_of_finite s m e * 10) with
      | Z0 => if s then (-0)%float else 0%float
      | tenths => float_of_Q (inject_Z tenths / 10)
      end
  | _ => x
  end.

(** [sum(l)] over floats: from 0, left to right, every addition rounded
    (the sum of CPython up to 3.11; later versions compensate the
    rounding errors of a float sum). *)
Definition py_sum (l : list float) : float := foldl PrimFloat.add 0%float l.

(** *** The same in exact arithmetic

    [round1] and [Qsum] are [round(x, 1)] and [sum] carried out on the
    rationals, with no rounding but the one to a tenth.  They are not what
    the source computes ([py_round1] and [py_sum] are): they state what
    the summary is meant to be, and the two readings differ (see
    [round_float_below_exact]). *)
Definition round1 (x : Q) : Q := (inject_Z (round_half_even (x * 10)) / 10)%Q.

Definition Qsum (l : list Q) : Q := foldl Qplus 0%Q l.

(* ===================================================================== *)
(** ** Tables *)
(* ===================================================================== *)

(** A clock reading. *)
Definition time := Z.

Module User.
(** A row of [users]; the e-mail address of an anonymous user is built
    from the clock reading kept in [email_stamp]. *)
Record t := mk {
  email_stamp : time;
  password_hash : str;
  first_name : str;
  last_name : str;
  role : str
}.
End User.

Module Verse.
Record t := mk { reference : str; text : str }.
End Verse.

Module Attempt.
Record t := mk {
  student_id : Z;
  verse_id : Z;
  assignment_id : option Z;
  recitation : str;
  score : Q;
  attempt_number : nat;
  time_spent_seconds : option Z;
  used_speech_recognition : bool;
  is_passing : bool
}.
End Attempt.

Inductive error_kind := missing_word | wrong_word | extra_word.

Module RecitationError.
Record t := mk {
  attempt_id : nat;
  error_type : error_kind;
  position : nat;
  expected_word : option str;
  actual_word : option str;
  context_before : str;
  context_after : str
}.
End RecitationError.

Inductive trend := improving | declining | stable.

Module Progress.
(** A row of [student_progress], keyed by (student_id, verse_id) in the
    table.  [latest_score] and [average_score] are the two columns the
    code guards with [or 0]. *)
Record t := mk {
  total_attempts : nat;
  best_score : Q;
  latest_score : option Q;
  is_memorized : bool;
  first_memorized_at : option time;
  last_attempt_at : time;
  average_score : option Q;
  improvement_trend : trend
}.
End Progress.

(** Modelled from the spec: [schema.sql] is not among the sources.  The
    four collections of the spec's persisted state (Passage, Attempt,
    Discrepancy, ProgressSummary unique per student and passage) and the
    [users] table, without further constraints; row ids of the
    append-only tables count from 1. *)
Record database := mkdb {
  users : list User.t;
  verses : gmap Z Verse.t;
  recitation_attempts : list Attempt.t;
  recitation_errors : list RecitationError.t;
  student_progress : gmap (Z * Z) Progress.t
}.

Definition set_users (db : database) (u : list User.t) : database :=
  mkdb u (verses db) (recitation_attempts db) (recitation_errors db)
       (student_progress db).
Definition set_recitation_attempts (db : database) (a : list Attempt.t) : database :=
  mkdb (users db) (verses db) a (recitation_errors db) (student_progress db).
Definition set_recitation_errors (db : database) (e : list RecitationError.t) : database :=
  mkdb (users db) (verses db) (recitation_attempts db) e (student_progress db).
Definition set_student_progress (db : database) (p : gmap (Z * Z) Progress.t) : database :=
  mkdb (users db) (verses db) (recitation_attempts db) (recitation_errors db) p.

(** [cursor.lastrowid] after appending to a table that now holds [rows]. *)
Definition lastrowid {A} (rows : list A) : nat := length rows.

(* ===================================================================== *)
(** ** models/verse.py *)
(* ===================================================================== *)

(** An exception nobody catches. *)
Inductive exception := TypeError.

(** How a call ends: with a value, or with an exception. *)
Inductive outcome (A : Type) :=
  | returned (a : A)
  | raised (e : exception).
Arguments returned {A} a.
Arguments raised {A} e.

#[global] Instance outcome_ret : MRet outcome := fun A a => returned a.
#[global] Instance outcome_bind : MBind outcome := fun A B f m =>
  match m with
  | returned a => f a
  | raised e => raised e
  end.

(** What a connection hands back for a row: a plain tuple, unless
    [row_factory] has been set to [sqlite3.Row]. *)
Inductive row_factory := tuples | sqlite3_Row.

Inductive fetched (A : Type) :=
  | tuple (values : A)
  | Row (values : A).
Arguments tuple {A} values.
Arguments Row {A} values.

Definition fetch {A} (factory : row_factory) (values : A) : fetched A :=
  match factory with
  | tuples => tuple values
  | sqlite3_Row => Row values
  end.

(** [row['column']]: a [sqlite3.Row] is indexed by column name, a tuple by
    integers only, so that a name raises [TypeError]. *)
Definition item {A B} (row : fetched A) (column : A -> B) : outcome B :=
  match row with
  | Row values => returned (column values)
  | tuple _ => raised TypeError
  end.

(** The branch [if current:] of [update_progress], up to the UPDATE it
    ends with.  Every reading of a column goes through [item], in the
    order of the source; the arithmetic is written on the rationals, and
    with [current] a tuple none of it is ever evaluated. *)
Definition update_existing (now : time) (db : database)
    (student_id verse_id : Z) (score : Q) (is_passing : bool)
    (current : fetched Progress.t) : outcome database :=
  total_attempts ← item current Progress.total_attempts;
  let new_total := (total_attempts + 1)%nat in
  best_score ← item current Progress.best_score;
  let new_best := py_max best_score score in
  average_score ← item current Progress.average_score;
  total_attempts ← item current Progress.total_attempts;
  let new_avg :=
    ((or0 average_score * Qnat total_attempts + score) / Qnat new_total)%Q in
  not_memorized ←
    (if is_passing
     then is_memorized ← item current Progress.is_memorized;
          mret (negb is_memorized)
     else mret false);
  first_memorized_at ←
    (if not_memorized : bool then mret (Some now)
     else item current Progress.first_memorized_at);
  latest_score ← item current Progress.latest_score;
  let trend :=
    if Qgtb score (or0 latest_score) then improving
    else if Qltb score (or0 latest_score) then declining
    else stable in
  mret
    (set_student_progress db
       (<[(student_id, verse_id) :=
            Progress.mk new_total new_best (Some score) is_passing
              first_memorized_at now (Some new_avg) trend]>
          (student_progress db))).

(** [StudentProgress.update_progress].  The connection is opened without
    a [row_factory], so [current] is a tuple. *)
Definition update_progress (now : time) (db : database)
    (student_id verse_id : Z) (score : Q) (attempt_number : nat)
    (is_passing : bool) : outcome database :=
  let current :=
    fetch tuples <$> student_progress db !! (student_id, verse_id) in
  match current with
  | Some current =>
      update_existing now db student_id verse_id score is_passing current
  | None =>
      returned
        (set_student_progress db
           (<[(student_id, verse_id) :=
                Progress.mk 1 score (Some score) is_passing
                  (if is_passing then Some now else None) now (Some score)
                  stable]>
              (student_progress db)))
  end.

(** [RecitationAttempt.create]: the new state, and the id of the inserted
    attempt when the call returns.  The INSERT is committed before
    [update_progress] is called, so the attempt is stored also when that
    call raises. *)
Definition create (now : time) (db : database)
    (student_id verse_id : Z) (recitation : str) (score : Q)
    (attempt_number : nat) (assignment_id : option Z)
    (time_spent_seconds : option Z) (used_speech_recognition : bool)
    : database * outcome nat :=
  let is_passing := Qgeb score 90 in
  let rows :=
    recitation_attempts db ++
    [Attempt.mk student_id verse_id assignment_id recitation score
       attempt_number time_spent_seconds used_speech_recognition is_passing] in
  let db := set_recitation_attempts db rows in
  let attempt_id := lastrowid rows in
  match update_progress now db student_id verse_id score attempt_number
          is_passing with
  | returned db => (db, returned attempt_id)
  | raised e => (db, raised e)
  end.

(** Truth value of an optional integer argument ([if verse_id:]). *)
Definition truthy (x : option Z) : bool :=
  match x with Some v => negb (v =? 0) | None => false end.

(** [RecitationAttempt.get_student_attempts], without [limit]: the
    attempts of the student whose verse exists (inner join on [verses]),
    restricted to [verse_id] when that is given and non-zero, newest
    first.  Here [row_factory] is set and the rows are only turned into
    dictionaries, which cannot raise. *)
Definition get_student_attempts (db : database) (student_id : Z)
    (verse_id : option Z) : list Attempt.t :=
  rev (filter
         (fun ra =>
            Attempt.student_id ra = student_id
            /\ is_Some (verses db !! Attempt.verse_id ra)
            /\ (truthy verse_id = true -> Some (Attempt.verse_id ra) = verse_id))
         (recitation_attempts db)).

(** [StudentProgress.get_student_progress] without a verse filter: the
    student's rows, each joined with its verse (rows whose verse does not
    exist drop out of the inner join).  Here too [row_factory] is set. *)
Definition get_student_progress (db : database) (student_id : Z)
    : list (Progress.t * Verse.t) :=
  omap (fun kv : Z * Z * Progress.t =>
          if bool_decide (kv.1.1 = student_id)
          then v ← verses db !! kv.1.2; Some (kv.2, v)
          else None)
       (map_to_list (student_progress db)).

(* ===================================================================== *)
(** ** routes/api.py *)
(* ===================================================================== *)

Definition len {A} (l : list A) : Z := Z.of_nat (length l).

(** The first loop of [process_recitation_errors]
    ([for i, correct_word in enumerate(correct_words)]), started at index
    [i] with [rest] still to visit; [errors] is the table being written. *)
Fixpoint find_missing_words (attempt_id : nat)
    (user_words correct_words : list str) (i : nat) (rest : list str)
    (errors : list RecitationError.t) : list RecitationError.t :=
  match rest with
  | [] => errors
  | correct_word :: rest' =>
      let errors :=
        if (len user_words <=? Z.of_nat i)
           || negb (bool_decide (nth i user_words [] = correct_word))
        then
          let error_type :=
            if len user_words <=? Z.of_nat i then missing_word else wrong_word in
          let actual_word :=
            if len user_words <=? Z.of_nat i then None
            else Some (nth i user_words []) in
          let context_before :=
            join [space]
              (slice correct_words (Z.max 0 (Z.of_nat i - 3)) (Z.of_nat i)) in
          let context_after :=
            join [space]
              (slice correct_words (Z.of_nat i + 1)
                 (Z.min (len correct_words) (Z.of_nat i + 4))) in
          errors ++
          [RecitationError.mk attempt_id error_type i (Some correct_word)
             actual_word context_before context_after]
        else errors in
      find_missing_words attempt_id user_words correct_words (S i) rest' errors
  end.

(** The second loop
    ([for i in range(len(correct_words), len(user_words))]). *)
Definition find_extra_words (attempt_id : nat)
    (user_words correct_words : list str)
    (errors : list RecitationError.t) : list RecitationError.t :=
  foldl
    (fun errors i =>
       let context_before :=
         join [space]
           (slice correct_words (Z.max 0 (len correct_words - 3))
              (len correct_words)) in
       errors ++
       [RecitationError.mk attempt_id extra_word i None
          (Some (nth i user_words [])) context_before []])
    errors
    (seq (length correct_words) (length user_words - length correct_words)).

(** The body of [process_recitation_errors] once both texts are
    tokenised: the rows it adds to [recitation_errors]. *)
Definition align_words (attempt_id : nat) (user_words correct_words : list str)
    (errors : list RecitationError.t) : list RecitationError.t :=
  let errors :=
    find_missing_words attempt_id user_words correct_words 0 correct_words
      errors in
  if len correct_words <? len user_words
  then find_extra_words attempt_id user_words correct_words errors
  else errors.

(** [process_recitation_errors] *)
Definition process_recitation_errors (db : database) (attempt_id : nat)
    (user_text correct_text : str) : database :=
  match correct_text with
  | [] => db
  | _ =>
      let user_words := split (normalize_string user_text) in
      let correct_words := split (normalize_string correct_text) in
      set_recitation_errors db
        (align_words attempt_id user_words correct_words (recitation_errors db))
  end.

Module Payload.
(** The JSON body of [POST /api/recitations]; an absent key is [None]. *)
Record t := mk {
  verseId : option Z;
  recitation : option str;
  score : option Q;
  studentName : option str;
  assignmentId : option Z;
  timeSpentSeconds : option Z;
  usedSpeechRecognition : option bool;
  diff : option str;
  correctAnswer : option str
}.
End Payload.

(** What the handler sees of the request: the logged-in user (id and full
    name), if any, and the JSON body. *)
Record request := mkreq {
  current_user : option (Z * str);
  data : Payload.t
}.

(** The database together with the client's session entry
    [anonymous_user_id]. *)
Record world := mkworld {
  db : database;
  anonymous_user_id : option Z
}.

(** What the client gets: one of the two JSON answers of the handler, or
    no answer of the handler at all when it raised (Flask then reports a
    server error). *)
Inductive response :=
  | success (attemptId : nat) (message : str)
  | error (message : str) (status : nat)
  | failed (e : exception).

(** Resolution of the acting user in [submit_recitation]. *)
Definition acting_user (now : time) (req : request) (w : world)
    (student_name : str) : world * Z :=
  match current_user req with
  | Some (id, _) => (w, id)
  | None =>
      match anonymous_user_id w with
      | Some id => (w, id)
      | None =>
          let rows :=
            users (db w) ++
            [User.mk now (lit "anonymous") student_name [] (lit "student")] in
          let id := Z.of_nat (lastrowid rows) in
          (mkworld (set_users (db w) rows) (Some id), id)
      end
  end.

(** [submit_recitation] *)
Definition submit_recitation (now : time) (req : request) (w : world)
    : world * response :=
  match Payload.verseId (data req), Payload.recitation (data req),
        Payload.score (data req) with
  | Some verseId, Some recitation, Some score =>
      let student_name :=
        default (lit "Anonymous") (Payload.studentName (data req)) in
      let '(w, user_id) := acting_user now req w student_name in
      let attempts := get_student_attempts (db w) user_id (Some verseId) in
      let attempt_number := (length attempts + 1)%nat in
      let '(d, attempt_id) :=
        create now (db w) user_id verseId recitation score attempt_number
          (Payload.assignmentId (data req))
          (Payload.timeSpentSeconds (data req))
          (default false (Payload.usedSpeechRecognition (data req))) in
      match attempt_id with
      | returned attempt_id =>
          let d :=
            if bool_decide (is_Some (Payload.diff (data req)))
               && negb (attempt_id =? 0)%nat
            then process_recitation_errors d attempt_id recitation
                   (default [] (Payload.correctAnswer (data req)))
            else d in
          (mkworld d (anonymous_user_id w),
           success attempt_id (lit "Recitation saved successfully"))
      | raised e => (mkworld d (anonymous_user_id w), failed e)
      end
  | _, _, _ => (w, error (lit "Missing required fields") 400)
  end.

(** The summary object of [get_my_progress]. *)
Module Summary64.
Record t := mk {
  total_verses_attempted : nat;
  verses_memorized : nat;
  average_best_score : float;
  total_attempts : nat;
  completion_rate : float
}.
End Summary64.

(** The summary statistics of [get_my_progress] over the fetched rows;
    [best_score] is read as a float. *)
Definition summarize_float (progress : list (Progress.t * Verse.t))
    : Summary64.t :=
  match progress with
  | _ :: _ =>
      let total_verses := length progress in
      let memorized_count :=
        sum_list_with (fun _ => 1%nat)
          (filter (fun p => Progress.is_memorized p.1 = true) progress) in
      let avg_score :=
        if (0 <? total_verses)%nat
        then (py_sum (map (fun p => float_of_Q (Progress.best_score p.1))
                        progress)
              / float_of_Q (Qnat total_verses))%float
        else 0%float in
      let total_attempts :=
        sum_list_with (fun p => Progress.total_attempts p.1) progress in
      Summary64.mk total_verses memorized_count (py_round1 avg_score)
        total_attempts
        (if (0 <? total_verses)%nat
         then py_round1
                (float_of_Q (Qnat memorized_count / Qnat total_verses) * 100)%float
         else 0%float)
  | [] => Summary64.mk 0 0 0%float 0 0%float
  end.

(** [get_my_progress]: the rows and their summary; without a logged-in or
    anonymous user, no rows and an empty summary object. *)
Definition get_my_progress (req : request) (w : world)
    : list (Progress.t * Verse.t) * option Summary64.t :=
  let user_id :=
    match current_user req with
    | Some (id, _) => Some id
    | None => anonymous_user_id w
    end in
  match user_id with
  | Some user_id =>
      let progress := get_student_progress (db w) user_id in
      (progress, Some (summarize_float progress))
  | None => ([], None)
  end.

(** *** The summary in exact arithmetic

    The formulas of [get_my_progress] with [Qsum], the quotient of [Q] and
    [round1] in place of the float operations. *)
Module Summary.
Record t := mk {
  total_verses_attempted : nat;
  verses_memorized : nat;
  average_best_score : Q;
  total_attempts : nat;
  completion_rate : Q
}.
End Summary.

Definition summarize (progress : list (Progress.t * Verse.t)) : Summary.t :=
  match progress with
  | _ :: _ =>
      let total_verses := length progress in
      let memorized_count :=
        sum_list_with (fun _ => 1%nat)
          (filter (fun p => Progress.is_memorized p.1 = true) progress) in
      let avg_score :=
        if (0 <? total_verses)%nat
        then (Qsum (map (fun p => Progress.best_score p.1) progress)
              / Qnat total_verses)%Q
        else 0%Q in
      let total_attempts :=
        sum_list_with (fun p => Progress.total_attempts p.1) progress in
      Summary.mk total_verses memorized_count (round1 avg_score) total_attempts
        (if (0 <? total_verses)%nat
         then round1 (Qnat memorized_count / Qnat total_verses * 100)%Q
         else 0%Q)
  | [] => Summary.mk 0 0 0%Q 0 0%Q
  end.

(* ===================================================================== *)
(** ** The specification's wording *)
(* ===================================================================== *)

Module Spec.

(** The last [n] elements (all of them when there are fewer). *)
Definition last_n {A} (n : nat) (l : list A) : list A :=
  drop (length l - n) l.

(** Up to 3 reference tokens immediately before position [i], joined by
    single spaces. *)
Definition context_before (referenceTokens : list str) (i : nat) : str :=
  join [space] (last_n 3 (take i referenceTokens)).

(** Up to 3 reference tokens immediately after position [i]. *)
Definition context_after (referenceTokens : list str) (i : nat) : str :=
  join [space] (take 3 (drop (S i) referenceTokens)).

(** What index [i] of the reference contributes. *)
Definition discrepancy_at (attempt : nat)
    (submittedTokens referenceTokens : list str) (i : nat)
    : list RecitationError.t :=
  match referenceTokens !! i with
  | None => []
  | Some expected =>
      match submittedTokens !! i with
      | None =>
          [RecitationError.mk attempt missing_word i (Some expected) None
             (context_before referenceTokens i)
             (context_after referenceTokens i)]
      | Some actual =>
          if decide (actual = expected) then []
          else
            [RecitationError.mk attempt wrong_word i (Some expected)
               (Some actual)
               (context_before referenceTokens i)
               (context_after referenceTokens i)]
      end
  end.

(** One [extra_word] per submitted token beyond the reference length. *)
Definition extra_words (attempt : nat)
    (submittedTokens referenceTokens : list str) : list RecitationError.t :=
  imap
    (fun k actual =>
       RecitationError.mk attempt extra_word (length referenceTokens + k)
         None (Some actual)
         (join [space] (last_n 3 referenceTokens)) [])
    (drop (length referenceTokens) submittedTokens).

(** align(submittedTokens, referenceTokens) *)
Definition align (attempt : nat) (submittedTokens referenceTokens : list str)
    : list RecitationError.t :=
  flat_map (discrepancy_at attempt submittedTokens referenceTokens)
    (seq 0 (length referenceTokens))
  ++ extra_words attempt submittedTokens referenceTokens.

(** The steps of normalize in the order the specification lists them:
    lower-case, strip the punctuation class, hyphens to spaces, collapse
    two spaces once, trim. *)
Definition normalize (text : str) : str :=
  strip (replace_two_spaces (replace_hyphen (re_sub_punctuation (lower text)))).

End Spec.

(** The text begins or ends with a character satisfying [p]. *)
Definition outer (p : ascii -> bool) (s : str) : bool :=
  match head s, last s with
  | Some a, Some b => p a || p b
  | _, _ => false
  end.

(** The text contains two adjacent spaces. *)
Fixpoint double_space (s : str) : bool :=
  match s with
  | [] => false
  | c :: r =>
      match r with
      | d :: _ =>
          (bool_decide (c = space) && bool_decide (d = space)) || double_space r
      | [] => false
      end
  end.

(** The character is removed or rewritten by the punctuation and hyphen
    steps. *)
Definition is_stripped (c : ascii) : bool :=
  is_punctuation c || bool_decide (c = hyphen).

(** The row that [update_progress] inserts for a pair without one. *)
Definition first_row (now : time) (score : Q) (is_passing : bool)
    : Progress.t :=
  Progress.mk 1 score (Some score) is_passing
    (if is_passing then Some now else None) now (Some score) stable.

(* ===================================================================== *)
(** ** Sample data *)
(* ===================================================================== *)

Definition empty_db : database := mkdb [] ∅ [] [] ∅.

Definition world_reference : list str :=
  [lit "for"; lit "god"; lit "so"; lit "loved"; lit "the"; lit "world"].
Definition world_submission : list str :=
  [lit "for"; lit "god"; lit "so"; lit "loves"; lit "the"; lit "world"].

(** Two attempts of student 7 at verse 3, at times 1 and 2: 95, then
    80. *)
Definition after_first : database :=
  (create 1 empty_db 7 3 (lit "recited") 95 1 None None false).1.
Definition after_second : database :=
  (create 2 after_first 7 3 (lit "recited") 80 2 None None false).1.

(** The other way round: 80 at time 1, then 95 at time 2. *)
Definition after_failing : database :=
  (create 1 empty_db 7 3 (lit "recited") 80 1 None None false).1.
Definition after_passing : database :=
  (create 2 after_failing 7 3 (lit "recited") 95 2 None None false).1.

(** The row of the pair (7, 3) after the first of these attempts. *)
Definition row_95 : Progress.t :=
  Progress.mk 1 95 (Some 95%Q) true (Some 1) 1 (Some 95%Q) stable.
Definition row_80 : Progress.t :=
  Progress.mk 1 80 (Some 80%Q) false None 1 (Some 80%Q) stable.

Definition fresh_world : world := mkworld empty_db None.

(** A logged-in student submits a score of 150 for verse 999. *)
Definition out_of_range : request :=
  mkreq (Some (7, lit "Ann"))
    (Payload.mk (Some 999) (Some (lit "for god")) (Some 150%Q) None None None
       None None None).

(** A submission with a reference text but no [diff] key. *)
Definition without_diff : request :=
  mkreq (Some (7, lit "Ann"))
    (Payload.mk (Some 3) (Some (lit "for god so loves")) (Some 75%Q) None None
       None None None (Some (lit "for god so loved"))).

(** A submission with a [diff] key and a reference text. *)
Definition with_diff : request :=
  mkreq None
    (Payload.mk (Some 3) (Some (lit "for god so loves")) (Some 75%Q) None None
       None None (Some (lit "diff")) (Some (lit "for god so loved"))).

(** The same from a logged-in student. *)
Definition with_diff_known : request :=
  mkreq (Some (7, lit "Ann"))
    (Payload.mk (Some 3) (Some (lit "for god so loves")) (Some 75%Q) None None
       None None (Some (lit "diff")) (Some (lit "for god so loved"))).

(** A submission without a score. *)
Definition without_score : request :=
  mkreq None
    (Payload.mk (Some 3) (Some (lit "for god")) None None None None None None
       None).

Definition progress_row (best : Q) (memorized : bool)
    : Progress.t * Verse.t :=
  (Progress.mk 1 best (Some best) memorized None 1 (Some best) stable,
   Verse.mk (lit "John 3:16") (lit "For God so loved the world")).

(** Eighty rows, 23 of them memorized. *)
Definition eighty_rows : list (Progress.t * Verse.t) :=
  replicate 23 (progress_row 90 true) ++ replicate 57 (progress_row 50 false).

Definition hyphen_a : str := lit "-a".
Definition for_god : str := lit "  For God so LOVED the world; that-he gave.  ".

(* ===================================================================== *)
(** ** Reading the tables *)
(* ===================================================================== *)

(** What an error row says, without its context fields. *)
Definition verdict (e : RecitationError.t)
    : error_kind * nat * option str * option str :=
  (RecitationError.error_type e, RecitationError.position e,
   RecitationError.expected_word e, RecitationError.actual_word e).

(** The fields an error row of each kind carries. *)
Definition well_formed (e : RecitationError.t) : Prop :=
  match RecitationError.error_type e with
  | missing_word =>
      is_Some (RecitationError.expected_word e)
      /\ RecitationError.actual_word e = None
  | wrong_word =>
      is_Some (RecitationError.expected_word e)
      /\ is_Some (RecitationError.actual_word e)
      /\ RecitationError.expected_word e <> RecitationError.actual_word e
  | extra_word =>
      RecitationError.expected_word e = None
      /\ is_Some (RecitationError.actual_word e)
      /\ RecitationError.context_after e = []
  end.

(** A token as [split] yields them: not empty and free of white space. *)
Definition is_token (w : str) : Prop :=
  w <> [] /\ Forall (fun c => is_space c = false) w.

(** The attempts stored for a (student, verse) pair, oldest first. *)
Definition pair_attempts (d : database) (student_id verse_id : Z)
    : list Attempt.t :=
  filter (fun ra => Attempt.student_id ra = student_id
                    /\ Attempt.verse_id ra = verse_id)
         (recitation_attempts d).

(** The progress row of a pair is the record of the first attempt stored
    for it: no row without attempts; otherwise one attempt counted, and
    the score and the pass flag of the oldest attempt of the pair. *)
Definition tracks (d : database) (student_id verse_id : Z) : Prop :=
  match student_progress d !! (student_id, verse_id) with
  | None => pair_attempts d student_id verse_id = []
  | Some p =>
      exists first : Attempt.t,
        head (pair_attempts d student_id verse_id) = Some first
        /\ Progress.total_attempts p = 1%nat
        /\ Progress.best_score p = Attempt.score first
        /\ Progress.latest_score p = Some (Attempt.score first)
        /\ Progress.average_score p = Some (Attempt.score first)
        /\ Progress.is_memorized p = Attempt.is_passing first
        /\ Progress.improvement_trend p = stable
  end.

(** A memorized row has its first-memorized time. *)
Definition stamped (p : Progress.t) : Prop :=
  Progress.is_memorized p = true -> is_Some (Progress.first_memorized_at p).

(** Every error row belongs to a stored attempt. *)
Definition errors_owned (d : database) : Prop :=
  Forall (fun e => (1 <= RecitationError.attempt_id e
                    <= length (recitation_attempts d))%nat)
         (recitation_errors d).

Definition john_3_16 : Verse.t :=
  Verse.mk (lit "John 3:16") (lit "For God so loved the world").

(** A database holding verse 3 and nothing else; nobody has a session. *)
Definition library_world : world :=
  mkworld (mkdb [] {[ 3 := john_3_16 ]} [] [] ∅) None.

(* ===================================================================== *)
(** * Properties *)
(* ===================================================================== *)

(** ** Alignment *)

Section Alignment.

Context (attempt_id : nat) (user_words correct_words : list str).

Lemma len_le_lookup (i : nat) :
  (len user_words <=? Z.of_nat i) = true <-> user_words !! i = None.
Proof.
  unfold len. rewrite Z.leb_le, lookup_ge_None. lia.
Qed.

Lemma nth_lookup_Some (i : nat) (w : str) :
  user_words !! i = Some w -> nth i user_words [] = w.
Proof.
  intros H. rewrite nth_lookup. by rewrite H.
Qed.

Lemma slice_before (i : nat) :
  (i <= length correct_words)%nat ->
  slice correct_words (Z.max 0 (Z.of_nat i - 3)) (Z.of_nat i)
  = Spec.last_n 3 (take i correct_words).
Proof.
  intros Hi. unfold slice, Spec.last_n.
  rewrite length_take, Nat.min_l by lia.
  replace (Z.to_nat (Z.max 0 (Z.of_nat i - 3))) with (i - 3)%nat by lia.
  replace (Z.to_nat (Z.of_nat i - Z.max 0 (Z.of_nat i - 3)))
    with (i - (i - 3))%nat by lia.
  rewrite take_drop_commute. f_equal. f_equal. lia.
Qed.

Lemma slice_after (i : nat) :
  slice correct_words (Z.of_nat i + 1)
    (Z.min (len correct_words) (Z.of_nat i + 4))
  = take 3 (drop (S i) correct_words).
Proof.
  unfold slice, len.
  replace (Z.to_nat (Z.of_nat i + 1)) with (S i) by lia.
  destruct (decide (i + 4 <= length correct_words)%nat) as [Hle|Hgt].
  - f_equal. lia.
  - rewrite !take_ge; [done | rewrite length_drop; lia | rewrite length_drop; lia].
Qed.

Lemma slice_tail :
  slice correct_words (Z.max 0 (len correct_words - 3)) (len correct_words)
  = Spec.last_n 3 correct_words.
Proof.
  unfold slice, Spec.last_n, len.
  replace (Z.to_nat (Z.max 0 (Z.of_nat (length correct_words) - 3)))
    with (length correct_words - 3)%nat by lia.
  apply take_ge. rewrite length_drop. lia.
Qed.

(** One turn of the first loop adds what the specification says index [i]
    contributes. *)
Lemma find_missing_words_from (rest : list str) :
  forall (i : nat) (errors : list RecitationError.t),
    drop i correct_words = rest ->
    find_missing_words attempt_id user_words correct_words i rest errors
    = errors
      ++ flat_map (Spec.discrepancy_at attempt_id user_words correct_words)
           (seq i (length rest)).
Proof.
  induction rest as [|correct_word rest IH]; intros i errors Hdrop.
  - simpl. by rewrite app_nil_r.
  - assert (Hi : correct_words !! i = Some correct_word).
    { pose proof (lookup_drop correct_words i 0) as H.
      rewrite Hdrop, Nat.add_0_r in H. done. }
    assert (Hlt : (i < length correct_words)%nat) by (by eapply lookup_lt_Some).
    assert (Hnext : drop (S i) correct_words = rest).
    { replace (S i) with (i + 1)%nat by lia.
      rewrite <- drop_drop, Hdrop. done. }
    cbn [find_missing_words length seq flat_map].
    rewrite IH by exact Hnext.
    rewrite app_assoc. f_equal.
    unfold Spec.discrepancy_at. rewrite Hi.
    unfold Spec.context_before, Spec.context_after.
    rewrite slice_before by lia. rewrite slice_after.
    destruct (user_words !! i) as [actual|] eqn:Hu.
    + assert (Hnone : (len user_words <=? Z.of_nat i) = false).
      { apply not_true_is_false. rewrite len_le_lookup. congruence. }
      rewrite Hnone, (nth_lookup_Some i actual Hu). simpl.
      destruct (decide (actual = correct_word)) as [->|Hne].
      * rewrite bool_decide_eq_true_2 by done. simpl. by rewrite app_nil_r.
      * rewrite bool_decide_eq_false_2 by done. done.
    + apply len_le_lookup in Hu. rewrite Hu. done.
Qed.

Lemma foldl_snoc {A B} (f : B -> A) (l : list B) (acc : list A) :
  foldl (fun acc i => acc ++ [f i]) acc l = acc ++ map f l.
Proof.
  revert acc. induction l as [|x l IH]; intros acc; simpl.
  - by rewrite app_nil_r.
  - rewrite IH, <- app_assoc. done.
Qed.

Lemma find_extra_words_spec (errors : list RecitationError.t) :
  find_extra_words attempt_id user_words correct_words errors
  = errors ++ Spec.extra_words attempt_id user_words correct_words.
Proof.
  unfold find_extra_words, Spec.extra_words.
  rewrite foldl_snoc with
    (f := fun i => RecitationError.mk attempt_id extra_word i None
                     (Some (nth i user_words []))
                     (join [space]
                        (slice correct_words
                           (Z.max 0 (len correct_words - 3))
                           (len correct_words))) []).
  f_equal. rewrite slice_tail.
  apply list_eq. intros k.
  rewrite list_lookup_fmap, list_lookup_imap, lookup_drop.
  destruct (decide (k < length user_words - length correct_words)%nat) as [Hk|Hk].
  - rewrite lookup_seq_lt by lia. simpl.
    destruct (user_words !! (length correct_words + k)%nat) as [w|] eqn:Hw.
    + simpl. by rewrite (nth_lookup_Some _ w Hw).
    + apply lookup_ge_None in Hw. lia.
  - rewrite lookup_seq_ge by lia. simpl.
    rewrite (proj2 (lookup_ge_None user_words _)) by lia. done.
Qed.

Lemma extra_words_none :
  (len correct_words <? len user_words) = false ->
  Spec.extra_words attempt_id user_words correct_words = [].
Proof.
  unfold len, Spec.extra_words. rewrite Z.ltb_ge. intros H.
  rewrite drop_ge by lia. done.
Qed.

Lemma align_words_spec (errors : list RecitationError.t) :
  align_words attempt_id user_words correct_words errors
  = errors ++ Spec.align attempt_id user_words correct_words.
Proof.
  unfold align_words, Spec.align.
  rewrite find_missing_words_from by done.
  destruct (len correct_words <? len user_words) eqn:Hlen.
  - rewrite find_extra_words_spec. by rewrite app_assoc.
  - rewrite extra_words_none by done. by rewrite app_nil_r.
Qed.

End Alignment.

(** C1.  For every pair of token sequences with a non-empty reference, the
    rows that alignment adds to the error table are exactly, in index
    order: for each reference index [i], a [missing_word] at [i] (expected
    reference token, no actual token) when the submission has no token
    [i], a [wrong_word] at [i] (expected and actual tokens) when the two
    tokens differ, nothing when they agree; then one [extra_word] per
    trailing submitted token, at the indices following the reference.
    Context before and after is up to 3 reference tokens on each side
    joined by single spaces; an [extra_word] has the last up to 3
    reference tokens before and nothing after. *)
Theorem align_words_positional (attempt_id : nat)
    (submittedTokens referenceTokens : list str)
    (errors : list RecitationError.t) :
  referenceTokens <> [] ->
  align_words attempt_id submittedTokens referenceTokens errors
  = errors ++ Spec.align attempt_id submittedTokens referenceTokens.
Proof.
  intros _. apply align_words_spec.
Qed.

Lemma align_words_positional_witness :
  world_reference <> []
  /\ align_words 1 world_submission world_reference []
     = [] ++ Spec.align 1 world_submission world_reference.
Proof.
  split; [discriminate | apply align_words_positional; discriminate].
Defined.

(** The scenario of the specification, from the raw texts. *)
Example loved_loves :
  recitation_errors
    (process_recitation_errors empty_db 1
       (lit "For God so loves the world.") (lit "For God so loved the world"))
  = [RecitationError.mk 1 wrong_word 3 (Some (lit "loved"))
       (Some (lit "loves")) (lit "for god so") (lit "the world")].
Proof. vm_compute. reflexivity. Qed.

Example short_and_long :
  align_words 1 [lit "a"; lit "b"; lit "c"; lit "d"] [lit "a"; lit "x"] []
  = [RecitationError.mk 1 wrong_word 1 (Some (lit "x")) (Some (lit "b"))
       (lit "a") [];
     RecitationError.mk 1 extra_word 2 None (Some (lit "c")) (lit "a x") [];
     RecitationError.mk 1 extra_word 3 None (Some (lit "d")) (lit "a x") []]
  /\ align_words 1 [lit "a"] [lit "a"; lit "b"; lit "c"] []
     = [RecitationError.mk 1 missing_word 1 (Some (lit "b")) None
          (lit "a") (lit "c");
        RecitationError.mk 1 missing_word 2 (Some (lit "c")) None
          (lit "a b") []].
Proof. split; vm_compute; reflexivity. Qed.

(** ** Numbers *)

Lemma Qgtb_lt (a b : Q) : Qgtb a b = true <-> (b < a)%Q.
Proof.
  unfold Qgtb. rewrite negb_true_iff, <- not_true_iff_false, Qle_bool_iff.
  split; [apply Qnot_le_lt | apply Qlt_not_le].
Qed.

Lemma Qltb_lt (a b : Q) : Qltb a b = true <-> (a < b)%Q.
Proof. apply Qgtb_lt. Qed.

Lemma Qgeb_le (a b : Q) : Qgeb a b = true <-> (b <= a)%Q.
Proof. apply Qle_bool_iff. Qed.

Lemma py_max_Qmax (a b : Q) : py_max a b = Qmax a b.
Proof.
  unfold py_max, Qmax, GenericMinMax.gmax.
  destruct (Qgtb b a) eqn:Hgt.
  - apply Qgtb_lt in Hgt. by rewrite (proj1 (Qlt_alt a b) Hgt).
  - destruct (a ?= b)%Q eqn:Hcmp; try done.
    apply (proj2 (Qlt_alt a b)), Qgtb_lt in Hcmp. congruence.
Qed.

Lemma or0_Some (a : Q) : (or0 (Some a) == a)%Q.
Proof.
  simpl. destruct (Qeq_bool a 0) eqn:H; [|reflexivity].
  apply Qeq_bool_eq in H. by rewrite H.
Qed.

(** ** Progress *)

Section Progress.

Context (now : time) (d : database) (student_id verse_id : Z).
Context (score : Q) (attempt_number : nat) (is_passing : bool).

(** The branch for an existing row stops at its first line: [current] is
    a tuple, and [current['total_attempts']] raises. *)
Lemma update_progress_existing (current : Progress.t) :
  student_progress d !! (student_id, verse_id) = Some current ->
  update_progress now d student_id verse_id score attempt_number is_passing
  = raised TypeError.
Proof. intros H. unfold update_progress. by rewrite H. Qed.

Lemma update_progress_new :
  student_progress d !! (student_id, verse_id) = None ->
  update_progress now d student_id verse_id score attempt_number is_passing
  = returned
      (set_student_progress d
         (<[(student_id, verse_id) := first_row now score is_passing]>
            (student_progress d))).
Proof. intros H. unfold update_progress. by rewrite H. Qed.

End Progress.

Section Create.

Context (now : time) (d : database) (student_id verse_id : Z).
Context (recitation : str) (score : Q) (attempt_number : nat).
Context (assignment_id time_spent_seconds : option Z).
Context (used_speech_recognition : bool).

(** For a pair that has a row, [create] stores the attempt and then
    raises; the progress table is as it was. *)
Lemma create_existing (current : Progress.t) :
  student_progress d !! (student_id, verse_id) = Some current ->
  create now d student_id verse_id recitation score attempt_number
    assignment_id time_spent_seconds used_speech_recognition
  = (set_recitation_attempts d
       (recitation_attempts d
        ++ [Attempt.mk student_id verse_id assignment_id recitation score
              attempt_number time_spent_seconds used_speech_recognition
              (Qgeb score 90)]),
     raised TypeError).
Proof.
  intros H. unfold create.
  by rewrite (update_progress_existing now (set_recitation_attempts d _)
                student_id verse_id score attempt_number (Qgeb score 90)
                current H).
Qed.

(** For a pair without a row, [create] stores the attempt, inserts the
    row and returns the id of the attempt. *)
Lemma create_new :
  student_progress d !! (student_id, verse_id) = None ->
  create now d student_id verse_id recitation score attempt_number
    assignment_id time_spent_seconds used_speech_recognition
  = (set_student_progress
       (set_recitation_attempts d
          (recitation_attempts d
           ++ [Attempt.mk student_id verse_id assignment_id recitation score
                 attempt_number time_spent_seconds used_speech_recognition
                 (Qgeb score 90)]))
       (<[(student_id, verse_id) := first_row now score (Qgeb score 90)]>
          (student_progress d)),
     returned (S (length (recitation_attempts d)))).
Proof.
  intros H. unfold create.
  rewrite (update_progress_new now (set_recitation_attempts d _)
             student_id verse_id score attempt_number (Qgeb score 90) H).
  unfold lastrowid. rewrite length_app, Nat.add_1_r. reflexivity.
Qed.

(** What [create] does to the tables, whichever way it ends. *)
Lemma create_frame :
  let r := create now d student_id verse_id recitation score attempt_number
             assignment_id time_spent_seconds used_speech_recognition in
  recitation_attempts r.1
  = recitation_attempts d
    ++ [Attempt.mk student_id verse_id assignment_id recitation score
          attempt_number time_spent_seconds used_speech_recognition
          (Qgeb score 90)]
  /\ recitation_errors r.1 = recitation_errors d
  /\ users r.1 = users d
  /\ verses r.1 = verses d
  /\ is_Some (student_progress r.1 !! (student_id, verse_id)).
Proof.
  cbv zeta.
  destruct (student_progress d !! (student_id, verse_id)) as [current|] eqn:H.
  - rewrite (create_existing current H).
    cbn [fst recitation_attempts recitation_errors users verses
         student_progress set_recitation_attempts].
    by rewrite H.
  - rewrite (create_new H).
    cbn [fst recitation_attempts recitation_errors users verses
         student_progress set_recitation_attempts set_student_progress].
    by rewrite lookup_insert_eq.
Qed.

Lemma create_progress :
  student_progress
    (create now d student_id verse_id recitation score attempt_number
       assignment_id time_spent_seconds used_speech_recognition).1
  = match student_progress d !! (student_id, verse_id) with
    | Some _ => student_progress d
    | None =>
        <[(student_id, verse_id) := first_row now score (Qgeb score 90)]>
          (student_progress d)
    end.
Proof.
  destruct (student_progress d !! (student_id, verse_id)) as [current|] eqn:H.
  - by rewrite (create_existing current H).
  - by rewrite (create_new H).
Qed.

End Create.

(** C2.  For a (student, verse) pair that already has a row,
    [update_progress] raises [TypeError] at [current['total_attempts']]
    and writes nothing: [create] has stored the attempt by then, and the
    row of the pair stays as it was.  For a score of 80 after a score of
    95 the row still holds one attempt, latest score 95, average 95 and
    trend stable, where the claim has two attempts, 80, 87.5 and
    declining. *)
Theorem update_progress_statistics (now : time) (d : database)
    (student_id verse_id : Z) (recitation : str) (score : Q)
    (attempt_number : nat) (assignment_id time_spent_seconds : option Z)
    (used_speech_recognition : bool) (old : Progress.t) :
  student_progress d !! (student_id, verse_id) = Some old ->
  (forall is_passing : bool,
      update_progress now d student_id verse_id score attempt_number
        is_passing = raised TypeError)
  /\ (create now d student_id verse_id recitation score attempt_number
        assignment_id time_spent_seconds used_speech_recognition).2
     = raised TypeError
  /\ student_progress
       (create now d student_id verse_id recitation score attempt_number
          assignment_id time_spent_seconds used_speech_recognition).1
     !! (student_id, verse_id) = Some old
  /\ student_progress after_first !! (7, 3) = Some row_95
  /\ Attempt.score <$> pair_attempts after_second 7 3 = [95%Q; 80%Q]
  /\ student_progress after_second !! (7, 3) = Some row_95
  /\ Progress.total_attempts row_95 = 1%nat
  /\ Progress.latest_score row_95 = Some 95%Q
  /\ Progress.average_score row_95 = Some 95%Q
  /\ Progress.improvement_trend row_95 = stable.
Proof.
  intros Hrow. split; [intros is_passing; by eapply update_progress_existing|].
  rewrite (create_existing now d student_id verse_id recitation score
             attempt_number assignment_id time_spent_seconds
             used_speech_recognition old Hrow).
  split; [reflexivity|]. split; [exact Hrow|].
  repeat split; vm_compute; reflexivity.
Qed.

Lemma update_progress_statistics_witness :
  student_progress after_first !! (7, 3) = Some row_95
  /\ (forall is_passing : bool,
        update_progress 2 after_first 7 3 80 2 is_passing = raised TypeError)
  /\ (create 2 after_first 7 3 (lit "recited") 80 2 None None false).2
     = raised TypeError
  /\ student_progress
       (create 2 after_first 7 3 (lit "recited") 80 2 None None false).1
     !! (7, 3) = Some row_95.
Proof.
  split; [vm_compute; reflexivity|].
  destruct (update_progress_statistics 2 after_first 7 3 (lit "recited") 80 2
              None None false row_95) as (H1 & H2 & H3 & _);
    [vm_compute; reflexivity|].
  exact (conj H1 (conj H2 H3)).
Defined.

(** C3.  [first_memorized_at] is written when the row of a pair is
    inserted and never again: an attempt for a pair that has a row leaves
    the field as it was, because [update_progress] raises before it gets
    to it.  So a pair whose first attempt fails never has the field set:
    after 80 at time 1 and 95 at time 2 the passing attempt is stored, and
    [first_memorized_at] is still absent. *)
Theorem first_memorized_at_only_at_insert (now : time) (d : database)
    (student_id verse_id : Z) (recitation : str) (score : Q)
    (attempt_number : nat) (assignment_id time_spent_seconds : option Z)
    (used_speech_recognition : bool) (old : Progress.t) :
  student_progress d !! (student_id, verse_id) = Some old ->
  Progress.first_memorized_at
    <$> student_progress
          (create now d student_id verse_id recitation score attempt_number
             assignment_id time_spent_seconds used_speech_recognition).1
        !! (student_id, verse_id)
  = Some (Progress.first_memorized_at old)
  /\ student_progress after_failing !! (7, 3) = Some row_80
  /\ Attempt.is_passing <$> pair_attempts after_passing 7 3 = [false; true]
  /\ Progress.first_memorized_at <$> student_progress after_passing !! (7, 3)
     = Some None.
Proof.
  intros Hrow.
  rewrite (create_existing now d student_id verse_id recitation score
             attempt_number assignment_id time_spent_seconds
             used_speech_recognition old Hrow).
  split; [cbn [fst student_progress set_recitation_attempts]; by rewrite Hrow|].
  repeat split; vm_compute; reflexivity.
Qed.

Lemma first_memorized_at_only_at_insert_witness :
  student_progress after_failing !! (7, 3) = Some row_80
  /\ Progress.first_memorized_at
       <$> student_progress
             (create 2 after_failing 7 3 (lit "recited") 95 2 None None
                false).1 !! (7, 3)
     = Some (Progress.first_memorized_at row_80).
Proof.
  split; [vm_compute; reflexivity|].
  apply (first_memorized_at_only_at_insert 2 after_failing 7 3 (lit "recited")
           95 2 None None false row_80).
  vm_compute; reflexivity.
Defined.

(** C4.  After an attempt for a pair that has a row, the stored
    [is_memorized] is the flag the row had, whatever the pass flag of the
    attempt: the UPDATE that would write the flag is never reached.  A
    failing attempt (80) after a passing one (95) is stored as failing,
    and the flag of the row stays true. *)
Theorem is_memorized_current_pass_flag (now : time) (d : database)
    (student_id verse_id : Z) (recitation : str) (score : Q)
    (attempt_number : nat) (assignment_id time_spent_seconds : option Z)
    (used_speech_recognition : bool) (old : Progress.t) :
  student_progress d !! (student_id, verse_id) = Some old ->
  Progress.is_memorized
    <$> student_progress
          (create now d student_id verse_id recitation score attempt_number
             assignment_id time_spent_seconds used_speech_recognition).1
        !! (student_id, verse_id)
  = Some (Progress.is_memorized old)
  /\ Progress.is_memorized <$> student_progress after_first !! (7, 3)
     = Some true
  /\ Attempt.is_passing <$> pair_attempts after_second 7 3 = [true; false]
  /\ Progress.is_memorized <$> student_progress after_second !! (7, 3)
     = Some true.
Proof.
  intros Hrow.
  rewrite (create_existing now d student_id verse_id recitation score
             attempt_number assignment_id time_spent_seconds
             used_speech_recognition old Hrow).
  split; [cbn [fst student_progress set_recitation_attempts]; by rewrite Hrow|].
  repeat split; vm_compute; reflexivity.
Qed.

Lemma is_memorized_current_pass_flag_witness :
  student_progress after_first !! (7, 3) = Some row_95
  /\ Progress.is_memorized
       <$> student_progress
             (create 2 after_first 7 3 (lit "recited") 80 2 None None
                false).1 !! (7, 3)
     = Some (Progress.is_memorized row_95).
Proof.
  split; [vm_compute; reflexivity|].
  apply (is_memorized_current_pass_flag 2 after_first 7 3 (lit "recited")
           80 2 None None false row_95).
  vm_compute; reflexivity.
Defined.

(** C5.  The first attempt recorded for a (student, verse) pair without a
    row creates the row with total_attempts = 1, best_score = latest_score
    = average_score = score, is_memorized = the pass flag,
    first_memorized_at = the time of the attempt when it passes and absent
    otherwise, trend stable; the pass flag is score >= 90. *)
Theorem create_first_attempt (now : time) (d : database)
    (student_id verse_id : Z) (recitation : str) (score : Q)
    (attempt_number : nat) (assignment_id time_spent_seconds : option Z)
    (used_speech_recognition : bool) :
  student_progress d !! (student_id, verse_id) = None ->
  exists passFlag : bool,
    (passFlag = true <-> (90 <= score)%Q)
    /\ student_progress
         (create now d student_id verse_id recitation score attempt_number
            assignment_id time_spent_seconds used_speech_recognition).1
       !! (student_id, verse_id)
       = Some (Progress.mk 1 score (Some score) passFlag
                 (if passFlag then Some now else None) now (Some score)
                 stable).
Proof.
  intros Hnone. exists (Qgeb score 90). split; [apply Qgeb_le|].
  rewrite (create_new now d student_id verse_id recitation score
             attempt_number assignment_id time_spent_seconds
             used_speech_recognition Hnone).
  cbn [fst student_progress set_student_progress].
  by rewrite lookup_insert_eq.
Qed.

Lemma create_first_attempt_witness :
  student_progress empty_db !! (7, 3) = None
  /\ exists passFlag : bool,
       (passFlag = true <-> (90 <= 95)%Q)
       /\ student_progress
            (create 1 empty_db 7 3 (lit "recited") 95 1 None None false).1
          !! (7, 3)
          = Some (Progress.mk 1 95 (Some 95%Q) passFlag
                    (if passFlag then Some 1 else None) 1 (Some 95%Q) stable).
Proof.
  split; [reflexivity|].
  apply (create_first_attempt 1 empty_db 7 3 (lit "recited") 95 1 None None
           false).
  reflexivity.
Defined.

(** The first scenario of the specification: a first attempt scoring 95. *)
Example first_attempt :
  student_progress after_first !! (7, 3)
  = Some (Progress.mk 1 95 (Some 95%Q) true (Some 1) 1 (Some 95%Q) stable).
Proof. vm_compute. reflexivity. Qed.

(** The second scenario of the specification, 80 after 95: the attempt is
    stored, the call fails, and the row is the one of the first
    attempt. *)
Example second_attempt :
  create 2 after_first 7 3 (lit "recited") 80 2 None None false
  = (after_second, raised TypeError)
  /\ length (recitation_attempts after_second) = 2%nat
  /\ student_progress after_second = student_progress after_first.
Proof. repeat split; vm_compute; reflexivity. Qed.

(** ** The handler *)

Lemma acting_user_frame (now : time) (req : request) (w : world)
    (student_name : str) :
  let w' := (acting_user now req w student_name).1 in
  verses (db w') = verses (db w)
  /\ recitation_attempts (db w') = recitation_attempts (db w)
  /\ recitation_errors (db w') = recitation_errors (db w)
  /\ student_progress (db w') = student_progress (db w).
Proof.
  unfold acting_user.
  destruct (current_user req) as [[id name]|]; [done|].
  destruct (anonymous_user_id w); done.
Qed.

Lemma process_recitation_errors_frame (d : database) (attempt_id : nat)
    (user_text correct_text : str) :
  let d' := process_recitation_errors d attempt_id user_text correct_text in
  recitation_attempts d' = recitation_attempts d
  /\ student_progress d' = student_progress d.
Proof. unfold process_recitation_errors. destruct correct_text; done. Qed.

Lemma process_recitation_errors_empty (d : database) (attempt_id : nat)
    (user_text : str) :
  process_recitation_errors d attempt_id user_text [] = d.
Proof. reflexivity. Qed.

(** With a reference text, the rows added are those of the positional
    alignment of the two normalised token sequences. *)
Lemma process_recitation_errors_align (d : database) (attempt_id : nat)
    (user_text correct_text : str) :
  correct_text <> [] ->
  recitation_errors
    (process_recitation_errors d attempt_id user_text correct_text)
  = recitation_errors d
    ++ Spec.align attempt_id (split (normalize_string user_text))
         (split (normalize_string correct_text)).
Proof.
  intros H. unfold process_recitation_errors.
  destruct correct_text; [done|]. simpl. apply align_words_spec.
Qed.

Lemma submit_recitation_rejected (now : time) (req : request) (w : world) :
  Payload.verseId (data req) = None
  \/ Payload.recitation (data req) = None
  \/ Payload.score (data req) = None ->
  submit_recitation now req w
  = (w, error (lit "Missing required fields") 400%nat).
Proof.
  unfold submit_recitation. intros [H | [H | H]]; rewrite H; [done|..].
  - by destruct (Payload.verseId (data req)).
  - by destruct (Payload.verseId (data req)),
                (Payload.recitation (data req)).
Qed.

Lemma payload_fields (req : request) :
  (Payload.verseId (data req) = None
   \/ Payload.recitation (data req) = None
   \/ Payload.score (data req) = None)
  \/ exists (verseId : Z) (recitation : str) (score : Q),
       Payload.verseId (data req) = Some verseId
       /\ Payload.recitation (data req) = Some recitation
       /\ Payload.score (data req) = Some score.
Proof.
  destruct (Payload.verseId (data req)) as [v|]; [|by left; left].
  destruct (Payload.recitation (data req)) as [r|]; [|by left; right; left].
  destruct (Payload.score (data req)) as [s|]; [|by left; right; right].
  right. by exists v, r, s.
Qed.

(** The handler on a payload with the three fields, in terms of
    [create]. *)
Lemma submit_recitation_create (now : time) (req : request) (w : world)
    (verseId : Z) (recitation : str) (score : Q) :
  Payload.verseId (data req) = Some verseId ->
  Payload.recitation (data req) = Some recitation ->
  Payload.score (data req) = Some score ->
  let au :=
    acting_user now req w
      (default (lit "Anonymous") (Payload.studentName (data req))) in
  let c :=
    create now (db au.1) au.2 verseId recitation score
      (length (get_student_attempts (db au.1) au.2 (Some verseId)) + 1)
      (Payload.assignmentId (data req))
      (Payload.timeSpentSeconds (data req))
      (default false (Payload.usedSpeechRecognition (data req))) in
  submit_recitation now req w
  = match c.2 with
    | returned attempt_id =>
        (mkworld
           (if bool_decide (is_Some (Payload.diff (data req)))
               && negb (attempt_id =? 0)%nat
            then process_recitation_errors c.1 attempt_id recitation
                   (default [] (Payload.correctAnswer (data req)))
            else c.1)
           (anonymous_user_id au.1),
         success attempt_id (lit "Recitation saved successfully"))
    | raised e => (mkworld c.1 (anonymous_user_id au.1), failed e)
    end.
Proof.
  intros Hv Hr Hs. unfold submit_recitation. rewrite Hv, Hr, Hs.
  destruct (acting_user _ _ _ _) as [w1 user_id]. cbn [fst snd].
  by destruct (create _ _ _ _ _ _ _ _ _ _) as [d1 [attempt_id|e]].
Qed.

(** The same, with the two ways [create] can end spelled out: for a pair
    that has a progress row the attempt is stored and the request fails;
    for a pair without one the attempt and the row are stored, the errors
    are processed if the payload has a [diff] key, and the answer is
    success. *)
Lemma submit_recitation_accepted (now : time) (req : request) (w : world)
    (verseId : Z) (recitation : str) (score : Q) :
  Payload.verseId (data req) = Some verseId ->
  Payload.recitation (data req) = Some recitation ->
  Payload.score (data req) = Some score ->
  let au :=
    acting_user now req w
      (default (lit "Anonymous") (Payload.studentName (data req))) in
  let stored :=
    set_recitation_attempts (db au.1)
      (recitation_attempts (db au.1)
       ++ [Attempt.mk au.2 verseId (Payload.assignmentId (data req))
             recitation score
             (length (get_student_attempts (db au.1) au.2 (Some verseId)) + 1)
             (Payload.timeSpentSeconds (data req))
             (default false (Payload.usedSpeechRecognition (data req)))
             (Qgeb score 90)]) in
  let attempt_id := S (length (recitation_attempts (db au.1))) in
  submit_recitation now req w
  = match student_progress (db au.1) !! (au.2, verseId) with
    | Some _ => (mkworld stored (anonymous_user_id au.1), failed TypeError)
    | None =>
        let d :=
          set_student_progress stored
            (<[(au.2, verseId) := first_row now score (Qgeb score 90)]>
               (student_progress (db au.1))) in
        (mkworld
           (if bool_decide (is_Some (Payload.diff (data req)))
            then process_recitation_errors d attempt_id recitation
                   (default [] (Payload.correctAnswer (data req)))
            else d)
           (anonymous_user_id au.1),
         success attempt_id (lit "Recitation saved successfully"))
    end.
Proof.
  intros Hv Hr Hs.
  rewrite (submit_recitation_create now req w verseId recitation score
             Hv Hr Hs).
  cbv zeta.
  set (au := acting_user now req w _).
  destruct (student_progress (db au.1) !! (au.2, verseId)) as [current|] eqn:H.
  - by rewrite (create_existing _ _ _ _ _ _ _ _ _ _ current H).
  - rewrite (create_new _ _ _ _ _ _ _ _ _ _ H). cbn [fst snd].
    by rewrite andb_true_r.
Qed.

(** What the handler does to the progress table: nothing, or the insertion
    of the row of a first attempt for a pair that had none. *)
Lemma submit_recitation_progress (now : time) (req : request) (w : world) :
  student_progress (db (submit_recitation now req w).1)
  = student_progress (db w)
  \/ exists (student_id verse_id : Z) (score : Q),
       Payload.verseId (data req) = Some verse_id
       /\ student_progress (db w) !! (student_id, verse_id) = None
       /\ student_progress (db (submit_recitation now req w).1)
          = <[(student_id, verse_id) := first_row now score (Qgeb score 90)]>
              (student_progress (db w)).
Proof.
  destruct (payload_fields req) as [H | (v & r & s & Hv & Hr & Hs)].
  - left. by rewrite submit_recitation_rejected.
  - rewrite (submit_recitation_accepted now req w v r s Hv Hr Hs). cbv zeta.
    destruct (acting_user_frame now req w
                (default (lit "Anonymous") (Payload.studentName (data req))))
      as (_ & _ & _ & Hp).
    set (au := acting_user now req w _) in *. rewrite Hp.
    destruct (student_progress (db w) !! (au.2, v)) as [current|] eqn:H.
    + left. cbn [fst db]. by rewrite <- Hp.
    + right. exists au.2, v, s. split; [done|]. split; [done|].
      cbn [fst db]. rewrite <- Hp.
      match goal with
      | |- context [process_recitation_errors ?d ?a ?u ?c] =>
          destruct (process_recitation_errors_frame d a u c) as [_ Hq]
      end.
      by destruct (bool_decide _); rewrite ?Hq.
Qed.

(** What the handler does to the attempts: nothing when it rejects the
    payload, and otherwise one attempt appended, with the fields of the
    payload. *)
Lemma submit_recitation_attempts (now : time) (req : request) (w : world)
    (verseId : Z) (recitation : str) (score : Q) :
  Payload.verseId (data req) = Some verseId ->
  Payload.recitation (data req) = Some recitation ->
  Payload.score (data req) = Some score ->
  let au :=
    acting_user now req w
      (default (lit "Anonymous") (Payload.studentName (data req))) in
  recitation_attempts (db (submit_recitation now req w).1)
  = recitation_attempts (db w)
    ++ [Attempt.mk au.2 verseId (Payload.assignmentId (data req))
          recitation score
          (length (get_student_attempts (db au.1) au.2 (Some verseId)) + 1)
          (Payload.timeSpentSeconds (data req))
          (default false (Payload.usedSpeechRecognition (data req)))
          (Qgeb score 90)].
Proof.
  intros Hv Hr Hs.
  rewrite (submit_recitation_accepted now req w verseId recitation score
             Hv Hr Hs). cbv zeta.
  destruct (acting_user_frame now req w
              (default (lit "Anonymous") (Payload.studentName (data req))))
    as (_ & Ha & _ & _).
  set (au := acting_user now req w _) in *. rewrite <- Ha.
  destruct (student_progress (db au.1) !! (au.2, verseId)); [done|].
  cbn [fst db].
  match goal with
  | |- context [process_recitation_errors ?d ?a ?u ?c] =>
      destruct (process_recitation_errors_frame d a u c) as [Hq _]
  end.
  by destruct (bool_decide _); rewrite ?Hq.
Qed.

(** C6, as stated, fails: a submission with score 150 for a verse that
    does not exist is answered with success, after an attempt and a
    progress row have been stored. *)
Lemma out_of_range_recorded :
  (100 < 150)%Q
  /\ verses (db fresh_world) !! 999 = None
  /\ exists w' : world,
       submit_recitation 1 out_of_range fresh_world
       = (w', success 1 (lit "Recitation saved successfully"))
       /\ length (recitation_attempts (db w')) = 1%nat
       /\ Progress.best_score <$> student_progress (db w') !! (7, 999)
          = Some 150%Q.
Proof.
  split; [reflexivity|]. split; [reflexivity|].
  eexists. split; [vm_compute; reflexivity|].
  split; vm_compute; reflexivity.
Qed.

(** C6, amended.  [submit_recitation] answers with a rejection only when
    one of the required fields verseId, recitation, score is missing: the
    answer is then "Missing required fields" (400) and nothing has been
    stored.  A submission with the three fields is never answered with a
    rejection, whatever the score and whether or not the verse exists:
    its attempt is appended, the pair has a progress row afterwards, and
    the first submission for a pair is answered with success and the id
    of the attempt. *)
Theorem submit_recitation_required_fields (now : time) (req : request)
    (w : world) :
  (Payload.verseId (data req) = None
   \/ Payload.recitation (data req) = None
   \/ Payload.score (data req) = None ->
   submit_recitation now req w
   = (w, error (lit "Missing required fields") 400%nat))
  /\ (forall (verseId : Z) (recitation : str) (score : Q),
        Payload.verseId (data req) = Some verseId ->
        Payload.recitation (data req) = Some recitation ->
        Payload.score (data req) = Some score ->
        exists (w' : world) (answer : response) (attempt : Attempt.t),
          submit_recitation now req w = (w', answer)
          /\ (forall (message : str) (status : nat),
                answer <> error message status)
          /\ recitation_attempts (db w')
             = recitation_attempts (db w) ++ [attempt]
          /\ Attempt.verse_id attempt = verseId
          /\ Attempt.score attempt = score
          /\ is_Some (student_progress (db w')
                      !! (Attempt.student_id attempt, verseId))
          /\ (student_progress (db w)
              !! (Attempt.student_id attempt, verseId) = None ->
              answer
              = success (S (length (recitation_attempts (db w))))
                  (lit "Recitation saved successfully"))).
Proof.
  split; [apply submit_recitation_rejected|].
  intros verseId recitation score Hv Hr Hs.
  pose proof (submit_recitation_attempts now req w verseId recitation score
                Hv Hr Hs) as Hatt.
  rewrite (submit_recitation_accepted now req w verseId recitation score
             Hv Hr Hs) in *.
  cbv zeta in *.
  destruct (acting_user_frame now req w
              (default (lit "Anonymous") (Payload.studentName (data req))))
    as (_ & Ha & _ & Hp).
  set (au := acting_user now req w _) in *.
  rewrite Hp in *. rewrite Ha in *.
  destruct (student_progress (db w) !! (au.2, verseId)) as [current|] eqn:H.
  - eexists _, _, _. split; [reflexivity|]. split; [done|].
    split; [exact Hatt|].
    cbn [Attempt.verse_id Attempt.score Attempt.student_id db
         student_progress set_recitation_attempts].
    rewrite Hp, H. repeat split; [by eexists | done].
  - eexists _, _, _. split; [reflexivity|]. split; [done|].
    split; [exact Hatt|].
    cbn [Attempt.verse_id Attempt.score Attempt.student_id db].
    split; [done|]. split; [done|]. split; [|done].
    match goal with
    | |- context [process_recitation_errors ?d ?a ?u ?c] =>
        destruct (process_recitation_errors_frame d a u c) as [_ Hq]
    end.
    destruct (bool_decide _); rewrite ?Hq;
      cbn [student_progress set_student_progress];
      rewrite lookup_insert_eq; by eexists.
Qed.

Lemma submit_recitation_required_fields_witness :
  ((Payload.verseId (data without_score) = None
    \/ Payload.recitation (data without_score) = None
    \/ Payload.score (data without_score) = None)
   /\ submit_recitation 1 without_score fresh_world
      = (fresh_world, error (lit "Missing required fields") 400%nat))
  /\ Payload.verseId (data out_of_range) = Some 999
  /\ Payload.recitation (data out_of_range) = Some (lit "for god")
  /\ Payload.score (data out_of_range) = Some 150%Q
  /\ exists (w' : world) (answer : response) (attempt : Attempt.t),
       submit_recitation 1 out_of_range fresh_world = (w', answer)
       /\ (forall (message : str) (status : nat),
             answer <> error message status)
       /\ recitation_attempts (db w')
          = recitation_attempts (db fresh_world) ++ [attempt]
       /\ Attempt.verse_id attempt = 999
       /\ Attempt.score attempt = 150%Q
       /\ is_Some (student_progress (db w')
                   !! (Attempt.student_id attempt, 999))
       /\ (student_progress (db fresh_world)
           !! (Attempt.student_id attempt, 999) = None ->
           answer
           = success (S (length (recitation_attempts (db fresh_world))))
               (lit "Recitation saved successfully")).
Proof.
  split.
  { split; [right; right; reflexivity|].
    apply (proj1 (submit_recitation_required_fields 1 without_score
                    fresh_world)).
    right; right; reflexivity. }
  split; [reflexivity|]. split; [reflexivity|]. split; [reflexivity|].
  apply (proj2 (submit_recitation_required_fields 1 out_of_range fresh_world)
           999 (lit "for god") 150%Q); reflexivity.
Defined.

(** A second submission for the same pair: stored, and the request
    fails. *)
Example repeat_submission :
  exists w' : world,
    submit_recitation 2 without_diff (mkworld after_first None)
    = (w', failed TypeError)
    /\ length (recitation_attempts (db w')) = 2%nat
    /\ student_progress (db w') = student_progress after_first.
Proof. eexists. repeat split; vm_compute; reflexivity. Qed.

(** C10.  [submit_recitation] adds rows to [recitation_errors] only when
    the payload has a [diff] key and the comparison text [correctAnswer]
    is non-empty: without the key nothing is added even if a reference
    text is supplied, and with an empty comparison text
    [process_recitation_errors] returns without writing. *)
Theorem errors_need_diff_and_reference (now : time) (req : request)
    (w : world) :
  Payload.diff (data req) = None
  \/ default [] (Payload.correctAnswer (data req)) = [] ->
  recitation_errors (db (submit_recitation now req w).1)
  = recitation_errors (db w)
  /\ (forall (d : database) (attempt_id : nat) (user_text : str),
        process_recitation_errors d attempt_id user_text [] = d).
Proof.
  intros H. split; [|reflexivity].
  destruct (payload_fields req) as [Hnone | (v & r & s & Hv & Hr & Hs)].
  { by rewrite submit_recitation_rejected. }
  rewrite (submit_recitation_accepted now req w v r s Hv Hr Hs). cbv zeta.
  destruct (acting_user_frame now req w
              (default (lit "Anonymous") (Payload.studentName (data req))))
    as (_ & _ & Fe & _).
  set (au := acting_user now req w _) in *. rewrite <- Fe.
  destruct (student_progress (db au.1) !! (au.2, v)); [done|].
  cbn [fst db].
  destruct H as [H | H]; rewrite H; [done|].
  rewrite process_recitation_errors_empty. by destruct (bool_decide _).
Qed.

Lemma errors_need_diff_and_reference_witness :
  (Payload.diff (data without_diff) = None
   \/ default [] (Payload.correctAnswer (data without_diff)) = [])
  /\ recitation_errors (db (submit_recitation 1 without_diff fresh_world).1)
     = recitation_errors (db fresh_world).
Proof.
  split; [left; reflexivity|].
  apply (errors_need_diff_and_reference 1 without_diff fresh_world).
  left; reflexivity.
Defined.

(** With both, the rows are stored. *)
Example errors_with_diff :
  recitation_errors (db (submit_recitation 1 with_diff fresh_world).1)
  = [RecitationError.mk 1 wrong_word 3 (Some (lit "loved"))
       (Some (lit "loves")) (lit "for god so") []].
Proof. vm_compute. reflexivity. Qed.

(** ** Summary *)

(** [round_half_even] is at most one half away. *)
Lemma round_half_even_close (x : Q) :
  (Qabs (inject_Z (round_half_even x) - x) <= 1 # 2)%Q.
Proof.
  unfold round_half_even.
  pose proof (Qfloor_le x) as Hlo. pose proof (Qlt_floor x) as Hhi.
  rewrite inject_Z_plus in Hhi. change (inject_Z 1) with 1%Q in Hhi.
  apply Qabs_Qle_condition.
  destruct (x - inject_Z (Qfloor x) ?= 1 # 2)%Q eqn:Hcmp.
  - pose proof (proj2 (Qeq_alt _ _) Hcmp) as H.
    destruct (Z.even (Qfloor x)); rewrite ?inject_Z_plus;
      change (inject_Z 1) with 1%Q; split; lra.
  - pose proof (proj2 (Qlt_alt _ _) Hcmp) as H. split; lra.
  - pose proof (proj2 (Qgt_alt _ _) Hcmp) as H.
    rewrite inject_Z_plus. change (inject_Z 1) with 1%Q. split; lra.
Qed.

Lemma round1_close (x : Q) : (Qabs (round1 x - x) <= 1 # 20)%Q.
Proof.
  unfold round1. pose proof (round_half_even_close (x * 10)) as H.
  apply Qabs_Qle_condition in H. apply Qabs_Qle_condition.
  set (n := inject_Z (round_half_even (x * 10))) in *.
  unfold Qdiv. change (/ 10)%Q with (1 # 10)%Q. split; lra.
Qed.

(** [round(x, 1)] of a finite float is the float nearest to a whole
    number of tenths that is at most 0.05 away from the value of [x]. *)
Lemma py_round1_finite (x : float) (s : bool) (m : positive) (e : Z) :
  Prim2SF x = S754_finite s m e ->
  exists tenths : Z,
    (Qabs (inject_Z tenths / 10 - Q_of_finite s m e) <= 1 # 20)%Q
    /\ py_round1 x
       = if (tenths =? 0)%Z then (if s then (-0)%float else 0%float)
         else float_of_Q (inject_Z tenths / 10).
Proof.
  intros H. exists (round_half_even (Q_of_finite s m e * 10)). split.
  - apply (round1_close (Q_of_finite s m e)).
  - unfold py_round1. rewrite H.
    by destruct (round_half_even (Q_of_finite s m e * 10)).
Qed.

(** Zeros, infinities and nan are their own rounding. *)
Lemma py_round1_not_finite (x : float) :
  (forall s m e, Prim2SF x <> S754_finite s m e) -> py_round1 x = x.
Proof.
  intros H. unfold py_round1.
  destruct (Prim2SF x) as [| | |s m e] eqn:E; try done.
  by destruct (H s m e).
Qed.

(** The float operations are not the exact ones: 1407/20 = 70.35 is held
    as a float just below it and rounds to 70.3, and 23/80 * 100 comes out
    just below 28.75 and rounds to 28.7, where exact arithmetic rounds the
    ties to 70.4 and 28.8. *)
Example round_float_below_exact :
  py_round1 (float_of_Q (1407 # 20)) = float_of_Q (703 # 10)
  /\ (round1 (1407 # 20) == 704 # 10)%Q
  /\ py_round1 (float_of_Q (23 # 80) * 100)%float = float_of_Q (287 # 10)
  /\ (round1 ((23 # 80) * 100) == 288 # 10)%Q.
Proof. repeat split; vm_compute; reflexivity. Qed.

(** Nor is a float sum independent of the order of its terms: the mean of
    60.5, 86.2, 20.0 and 45.9 rounds to 53.1, that of the same numbers
    taken from the last to the first to 53.2. *)
Example py_sum_order :
  py_round1
    (py_sum (map float_of_Q [605 # 10; 862 # 10; 20; 459 # 10]%Q) / 4)%float
  = float_of_Q (531 # 10)
  /\ py_round1
       (py_sum (map float_of_Q [459 # 10; 20; 862 # 10; 605 # 10]%Q) / 4)%float
     = float_of_Q (532 # 10).
Proof. split; vm_compute; reflexivity. Qed.

Lemma summarize_nonempty (p : Progress.t * Verse.t)
    (rest : list (Progress.t * Verse.t)) :
  (0 <? length (p :: rest))%nat = true.
Proof. done. Qed.

(** For a known user [get_my_progress] reports the summary of the rows
    it fetched. *)
Lemma get_my_progress_summary (req : request) (w : world) (user_id : Z) :
  match current_user req with
  | Some (id, _) => Some id
  | None => anonymous_user_id w
  end = Some user_id ->
  get_my_progress req w
  = (get_student_progress (db w) user_id,
     Some (summarize_float (get_student_progress (db w) user_id))).
Proof. unfold get_my_progress. by intros ->. Qed.

(** C7, as stated, fails: for best scores 100, 60 and 61 the mean is the
    float nearest to 221/3 (73.66666666666667), and the reported
    average_best_score is 73.7. *)
Lemma average_best_score_rounded :
  let rows := [progress_row 100 true; progress_row 60 false;
               progress_row 61 false] in
  let mean :=
    (py_sum (map (fun p => float_of_Q (Progress.best_score p.1)) rows)
     / float_of_Q (Qnat (length rows)))%float in
  mean = float_of_Q (221 # 3)
  /\ Summary64.average_best_score (summarize_float rows)
     = float_of_Q (737 # 10)
  /\ Summary64.average_best_score (summarize_float rows) <> mean.
Proof.
  cbv zeta. split; [vm_compute; reflexivity|].
  split; [vm_compute; reflexivity|].
  intros H. apply (f_equal Prim2SF) in H. vm_compute in H. discriminate.
Qed.

(** C7, amended.  Over the rows fetched for a student the summary has
    verses_attempted = number of rows, verses_memorized = number of rows
    with is_memorized, average_best_score = round(mean, 1) for the mean of
    best_score taken in float arithmetic (the sum in the order of the
    rows, divided by their number; 0 without rows), total_attempts = the
    sum of total_attempts, completion_rate = round(verses_memorized /
    verses_attempted * 100, 1) in float arithmetic (0 without rows); for
    two rows with best_score 100 and 60, the first memorized and the
    second not, average_best_score is 80.0 and completion_rate 50.0, and
    for 80 rows of which 23 are memorized completion_rate is 28.7 (the
    float product comes out just below 28.75). *)
Theorem summarize_statistics (progress : list (Progress.t * Verse.t)) :
  let memorized :=
    length (filter (fun p => Progress.is_memorized p.1 = true) progress) in
  Summary64.total_verses_attempted (summarize_float progress)
  = length progress
  /\ Summary64.verses_memorized (summarize_float progress) = memorized
  /\ Summary64.average_best_score (summarize_float progress)
     = match progress with
       | [] => 0%float
       | _ =>
           py_round1
             (py_sum (map (fun p => float_of_Q (Progress.best_score p.1))
                        progress)
              / float_of_Q (Qnat (length progress)))%float
       end
  /\ Summary64.total_attempts (summarize_float progress)
     = sum_list (map (fun p => Progress.total_attempts p.1) progress)
  /\ Summary64.completion_rate (summarize_float progress)
     = match progress with
       | [] => 0%float
       | _ =>
           py_round1
             (float_of_Q (Qnat memorized / Qnat (length progress)) * 100)%float
       end
  /\ Summary64.average_best_score
       (summarize_float [progress_row 100 true; progress_row 60 false])
     = 80%float
  /\ Summary64.completion_rate
       (summarize_float [progress_row 100 true; progress_row 60 false])
     = 50%float
  /\ Summary64.verses_memorized (summarize_float eighty_rows) = 23%nat
  /\ Summary64.completion_rate (summarize_float eighty_rows)
     = float_of_Q (287 # 10).
Proof.
  assert (Hones : forall l : list (Progress.t * Verse.t),
             sum_list_with (fun _ => 1%nat) l = length l).
  { induction l as [|x l IH]; simpl; [done | by rewrite IH]. }
  assert (Hsum : forall l : list (Progress.t * Verse.t),
             sum_list_with (fun p => Progress.total_attempts p.1) l
             = sum_list (map (fun p => Progress.total_attempts p.1) l)).
  { induction l as [|x l IH]; simpl; [done | by rewrite IH]. }
  cbv zeta. destruct progress as [|p rest].
  - repeat split; vm_compute; reflexivity.
  - unfold summarize_float. rewrite summarize_nonempty.
    cbn [Summary64.total_verses_attempted Summary64.verses_memorized
         Summary64.average_best_score Summary64.total_attempts
         Summary64.completion_rate].
    rewrite Hones, Hsum. repeat split; vm_compute; reflexivity.
Qed.

(** ** Normalisation *)

Lemma lower_char_idempotent (c : ascii) :
  lower_char (lower_char c) = lower_char c.
Proof. destruct c as [[] [] [] [] [] [] [] []]; reflexivity. Qed.

Lemma is_space_not_space (c : ascii) : is_space c = false -> c <> space.
Proof. intros H ->. discriminate H. Qed.

Lemma is_stripped_false (c : ascii) :
  is_stripped c = false -> is_punctuation c = false /\ c <> hyphen.
Proof.
  unfold is_stripped. rewrite orb_false_iff, bool_decide_eq_false. done.
Qed.

(** Induction following the recursion of [replace_two_spaces]. *)
Lemma two_step_induction (P : str -> Prop) :
  P [] -> (forall c, P [c]) ->
  (forall c d r, P r -> P (d :: r) -> P (c :: d :: r)) ->
  forall s, P s.
Proof.
  intros Hnil Hone Hstep s.
  enough (P s /\ forall c, P (c :: s)) by tauto.
  induction s as [|d r [IH1 IH2]]; split; auto.
Qed.

Lemma replace_two_spaces_cons (c d : ascii) (r : str) :
  replace_two_spaces (c :: d :: r)
  = if bool_decide (c = space) && bool_decide (d = space)
    then space :: replace_two_spaces r
    else c :: replace_two_spaces (d :: r).
Proof. reflexivity. Qed.

Lemma outer_false (p : ascii -> bool) (s : str) :
  outer p s = false
  <-> (forall c, head s = Some c -> p c = false)
      /\ (forall c, last s = Some c -> p c = false).
Proof.
  unfold outer. destruct s as [|a r]; [by split|].
  cbn [head]. destruct (last (a :: r)) as [b|] eqn:Hlast.
  - rewrite orb_false_iff. split.
    + intros [Ha Hb]. split; intros c [= <-]; done.
    + intros [Ha Hb]. split; [by apply Ha | by apply Hb].
  - by apply last_None in Hlast.
Qed.

(** *** What the steps leave in the text *)

Lemma lstrip_elem (c : ascii) (s : str) : c ∈ lstrip s -> c ∈ s.
Proof.
  induction s as [|a r IH]; simpl; [done|].
  destruct (is_space a); [|done]. intros H. right. by apply IH.
Qed.

Lemma strip_elem (c : ascii) (s : str) : c ∈ strip s -> c ∈ s.
Proof.
  unfold strip, rstrip. rewrite elem_of_reverse. intros H.
  apply lstrip_elem. apply lstrip_elem in H. by rewrite elem_of_reverse in H.
Qed.

Lemma replace_two_spaces_elem (c : ascii) (s : str) :
  c ∈ replace_two_spaces s -> c ∈ s.
Proof.
  induction s as [|a|a d r IH1 IH2] using two_step_induction; [done..|].
  rewrite replace_two_spaces_cons.
  destruct (bool_decide (a = space)) eqn:Ha; cbn [andb].
  - apply bool_decide_eq_true in Ha. subst a.
    destruct (bool_decide (d = space)); rewrite !elem_of_cons.
    + intros [->|H]; [by left | right; right; by apply IH1].
    + intros [->|H]; [by left | right; by apply elem_of_cons, IH2].
  - rewrite !elem_of_cons.
    intros [->|H]; [by left | right; by apply elem_of_cons, IH2].
Qed.

(** A normalised text holds no upper-case letter, no character of the
    punctuation class and no hyphen. *)
Lemma normalize_string_chars (text : str) (c : ascii) :
  c ∈ normalize_string text ->
  lower_char c = c /\ is_punctuation c = false /\ c <> hyphen.
Proof.
  unfold normalize_string, replace_hyphen, re_sub_punctuation, lower.
  intros H. apply replace_two_spaces_elem in H.
  apply list_elem_of_fmap in H as (a & -> & Ha).
  apply list_elem_of_filter in Ha as [Hpunct Ha].
  apply strip_elem, list_elem_of_fmap in Ha as (b & -> & _).
  case_bool_decide as Hh; [done|].
  split; [apply lower_char_idempotent | done].
Qed.

(** *** When a step changes nothing *)

Lemma lower_fixed (s : str) :
  (forall c, c ∈ s -> lower_char c = c) -> lower s = s.
Proof.
  unfold lower. induction s as [|a r IH]; intros H; simpl; [done|].
  rewrite H by left. rewrite IH; [done|]. intros c Hc. apply H. by right.
Qed.

Lemma re_sub_punctuation_fixed (s : str) :
  (forall c, c ∈ s -> is_punctuation c = false) -> re_sub_punctuation s = s.
Proof.
  unfold re_sub_punctuation. induction s as [|a r IH]; intros H; [done|].
  rewrite filter_cons_True by (apply H; left).
  rewrite IH; [done|]. intros c Hc. apply H. by right.
Qed.

Lemma replace_hyphen_fixed (s : str) :
  (forall c, c ∈ s -> c <> hyphen) -> replace_hyphen s = s.
Proof.
  unfold replace_hyphen. induction s as [|a r IH]; intros H; simpl; [done|].
  rewrite bool_decide_eq_false_2 by (apply H; left).
  rewrite IH; [done|]. intros c Hc. apply H. by right.
Qed.

Lemma replace_two_spaces_fixed (s : str) :
  double_space s = false -> replace_two_spaces s = s.
Proof.
  induction s as [|a|a d r IH1 IH2] using two_step_induction; [done..|].
  rewrite replace_two_spaces_cons. cbn [double_space].
  rewrite orb_false_iff. intros [-> H]. by rewrite IH2.
Qed.

Lemma lstrip_fixed (s : str) :
  (forall c, head s = Some c -> is_space c = false) -> lstrip s = s.
Proof. destruct s as [|a r]; [done|]. intros H. simpl. by rewrite H. Qed.

Lemma strip_fixed (s : str) : outer is_space s = false -> strip s = s.
Proof.
  rewrite outer_false. intros [Hhead Hlast]. unfold strip, rstrip.
  rewrite (lstrip_fixed s Hhead).
  rewrite lstrip_fixed by (intros c; rewrite head_reverse; apply Hlast).
  apply reverse_involutive.
Qed.

(** *** The ends of the text *)

Lemma lstrip_head (s : str) (c : ascii) :
  head (lstrip s) = Some c -> is_space c = false.
Proof.
  induction s as [|a r IH]; simpl; [done|].
  destruct (is_space a) eqn:Ha; [done|]. by intros [= <-].
Qed.

Lemma lstrip_last (s : str) : lstrip s <> [] -> last (lstrip s) = last s.
Proof.
  induction s as [|a r IH]; simpl; [done|].
  destruct (is_space a); [|done]. intros H. rewrite IH by done.
  rewrite last_cons. destruct (last r) eqn:Hr; [done|].
  apply last_None in Hr. by subst r.
Qed.

(** [strip] leaves no white space at either end. *)
Lemma strip_outer (s : str) : outer is_space (strip s) = false.
Proof.
  apply outer_false. unfold strip, rstrip. split; intros c.
  - rewrite head_reverse. intros H.
    rewrite lstrip_last in H by (intros E; by rewrite E in H).
    rewrite last_reverse in H. by apply lstrip_head in H.
  - rewrite last_reverse. apply lstrip_head.
Qed.

Lemma replace_two_spaces_snoc (s : str) (c : ascii) :
  c <> space -> exists s', replace_two_spaces (s ++ [c]) = s' ++ [c].
Proof.
  intros Hc.
  induction s as [|a|a d r IH1 IH2] using two_step_induction.
  - by exists [].
  - exists [a]. simpl. rewrite (bool_decide_eq_false_2 (c = space)) by done.
    by rewrite andb_false_r.
  - cbn [app] in *. rewrite replace_two_spaces_cons.
    destruct IH1 as [s1 H1]. destruct IH2 as [s2 H2].
    destruct (_ && _).
    + exists (space :: s1). by rewrite H1.
    + exists (a :: s2). by rewrite H2.
Qed.

(** A first character that is neither white space nor removed by the
    punctuation and hyphen steps stays first. *)
Lemma steps_head (s : str) (c : ascii) :
  head s = Some c -> is_space c = false -> is_stripped c = false ->
  head (replace_two_spaces (replace_hyphen (re_sub_punctuation s))) = Some c.
Proof.
  intros Hhead Hspace [Hpunct Hhyphen]%is_stripped_false.
  destruct s as [|a r]; [done|]. injection Hhead as ->.
  unfold re_sub_punctuation. rewrite filter_cons_True by done.
  unfold replace_hyphen. cbn [map]. rewrite bool_decide_eq_false_2 by done.
  match goal with |- context [c :: ?t] => destruct t as [|d t'] end; [done|].
  rewrite replace_two_spaces_cons.
  by rewrite (bool_decide_eq_false_2 (c = space))
    by (by apply is_space_not_space).
Qed.

(** Likewise for the last character. *)
Lemma steps_last (s : str) (c : ascii) :
  last s = Some c -> is_space c = false -> is_stripped c = false ->
  last (replace_two_spaces (replace_hyphen (re_sub_punctuation s))) = Some c.
Proof.
  intros [m ->]%last_Some Hspace [Hpunct Hhyphen]%is_stripped_false.
  unfold re_sub_punctuation. rewrite filter_app, filter_cons_True by done.
  rewrite filter_nil. unfold replace_hyphen. rewrite map_app. cbn [map].
  rewrite bool_decide_eq_false_2 by done.
  match goal with
  | |- context [replace_two_spaces (?t ++ [c])] =>
      destruct (replace_two_spaces_snoc t c) as [s' ->]
  end; [by apply is_space_not_space|].
  apply last_snoc.
Qed.

(** *** Lengths *)

Lemma lstrip_shorter (s : str) :
  lstrip s = s \/ (length (lstrip s) < length s)%nat.
Proof.
  induction s as [|a r IH]; simpl; [by left|].
  destruct (is_space a); [|by left]. right. destruct IH as [-> | H]; lia.
Qed.

Lemma strip_shorter (s : str) :
  strip s = s \/ (length (strip s) < length s)%nat.
Proof.
  unfold strip, rstrip.
  destruct (lstrip_shorter s) as [Hs | Hs].
  - rewrite Hs. destruct (lstrip_shorter (reverse s)) as [Hr | Hr].
    + left. rewrite Hr. apply reverse_involutive.
    + right. rewrite length_reverse in *. lia.
  - right. rewrite length_reverse.
    destruct (lstrip_shorter (reverse (lstrip s))) as [Hr | Hr].
    + rewrite Hr, length_reverse. lia.
    + rewrite length_reverse in Hr. lia.
Qed.

Lemma replace_two_spaces_shorter (s : str) :
  (length (replace_two_spaces s) <= length s)%nat
  /\ (double_space s = true ->
      (length (replace_two_spaces s) < length s)%nat).
Proof.
  induction s as [|a|a d r IH1 IH2] using two_step_induction;
    [by split..|].
  rewrite replace_two_spaces_cons. cbn [double_space].
  destruct (_ && _); cbn [orb length] in *.
  - split; [lia | intros _; lia].
  - destruct IH2 as [Hle Hlt]. split; [lia|]. intros H. apply Hlt in H. lia.
Qed.

(** *** Tokens *)

Lemma split_from_space_prefix (p s : str) :
  Forall (fun c => is_space c = true) p ->
  split_from [] (p ++ s) = split_from [] s.
Proof.
  induction 1 as [|a p Ha _ IH]; [done|]. simpl. by rewrite Ha.
Qed.

Lemma split_from_spaces (q : str) (w : str) :
  Forall (fun c => is_space c = true) q ->
  split_from w q = split_from w [].
Proof.
  intros H. revert w. induction H as [|a q Ha _ IH]; intros w; [done|].
  simpl. rewrite Ha. rewrite (IH []). by destruct w.
Qed.

Lemma split_from_space_suffix (q s : str) (w : str) :
  Forall (fun c => is_space c = true) q ->
  split_from w (s ++ q) = split_from w s.
Proof.
  intros H. revert w. induction s as [|a s IH]; intros w.
  - by apply split_from_spaces.
  - simpl. destruct (is_space a); [|apply IH].
    rewrite (IH []). done.
Qed.

Lemma split_replace_two_spaces (s : str) :
  forall w, split_from w (replace_two_spaces s) = split_from w s.
Proof.
  induction s as [|a|a d r IH1 IH2] using two_step_induction;
    intros w; [done..|].
  rewrite replace_two_spaces_cons.
  destruct (bool_decide (a = space)) eqn:Ha;
    [destruct (bool_decide (d = space)) eqn:Hd|]; cbn [andb].
  - apply bool_decide_eq_true in Ha, Hd. subst a d.
    cbn [split_from]. change (is_space space) with true. cbv iota.
    rewrite IH1. by destruct w.
  - cbn [split_from]. destruct (is_space a); by rewrite IH2.
  - cbn [split_from]. destruct (is_space a); by rewrite IH2.
Qed.

Lemma lstrip_decompose (s : str) :
  exists p, s = p ++ lstrip s /\ Forall (fun c => is_space c = true) p.
Proof.
  induction s as [|a r (p & Hr & Hp)]; [by exists []|]. simpl.
  destruct (is_space a) eqn:Ha; [|by exists []].
  exists (a :: p). split; [simpl; by f_equal | by constructor].
Qed.

Lemma strip_decompose (s : str) :
  exists p q, s = p ++ strip s ++ q
              /\ Forall (fun c => is_space c = true) p
              /\ Forall (fun c => is_space c = true) q.
Proof.
  unfold strip, rstrip.
  destruct (lstrip_decompose s) as (p & Hs & Hp).
  destruct (lstrip_decompose (reverse (lstrip s))) as (q & Hr & Hq).
  exists p, (reverse q). split; [|split; [done | by apply Forall_reverse]].
  rewrite <- reverse_app, <- Hr, reverse_involutive. exact Hs.
Qed.

Lemma split_strip (s : str) : split (strip s) = split s.
Proof.
  destruct (strip_decompose s) as (p & q & Hs & Hp & Hq).
  unfold split. rewrite Hs at 2.
  rewrite split_from_space_prefix by done.
  by rewrite split_from_space_suffix.
Qed.

Lemma is_space_kept (c : ascii) :
  is_space c = true -> is_stripped c = false.
Proof.
  destruct c as [[] [] [] [] [] [] [] []]; vm_compute; congruence.
Qed.

Lemma steps_spaces (p : str) :
  Forall (fun c => is_space c = true) p ->
  replace_hyphen (re_sub_punctuation p) = p.
Proof.
  intros H. rewrite Forall_forall in H.
  rewrite re_sub_punctuation_fixed, replace_hyphen_fixed; [done|..];
    intros c Hc; by apply is_stripped_false, is_space_kept, H.
Qed.

Lemma steps_app (a b : str) :
  replace_hyphen (re_sub_punctuation (a ++ b))
  = replace_hyphen (re_sub_punctuation a)
    ++ replace_hyphen (re_sub_punctuation b).
Proof.
  unfold re_sub_punctuation, replace_hyphen. by rewrite filter_app, map_app.
Qed.

Lemma split_steps_strip (s : str) :
  split (replace_hyphen (re_sub_punctuation (strip s)))
  = split (replace_hyphen (re_sub_punctuation s)).
Proof.
  destruct (strip_decompose s) as (p & q & Hs & Hp & Hq).
  rewrite Hs at 2.
  rewrite !steps_app, (steps_spaces p Hp), (steps_spaces q Hq).
  unfold split. rewrite split_from_space_prefix by done.
  by rewrite split_from_space_suffix.
Qed.

(** Trimming first or last makes no difference to the tokens. *)
Lemma tokens_whatever_the_trim (text : str) :
  split (normalize_string text) = split (Spec.normalize text).
Proof.
  unfold normalize_string, Spec.normalize, split at 1.
  rewrite split_replace_two_spaces. fold (split (replace_hyphen
    (re_sub_punctuation (strip (lower text))))).
  rewrite split_steps_strip, split_strip. unfold split.
  by rewrite split_replace_two_spaces.
Qed.

(** On a normalised text the lower-casing, punctuation and hyphen steps
    change nothing, so normalising it again only trims and collapses. *)
Lemma normalize_string_again (text : str) :
  normalize_string (normalize_string text)
  = replace_two_spaces (strip (normalize_string text)).
Proof.
  set (y := normalize_string text).
  assert (Hy : forall c, c ∈ y ->
             lower_char c = c /\ is_punctuation c = false /\ c <> hyphen)
    by apply normalize_string_chars.
  unfold normalize_string at 1.
  rewrite lower_fixed by (intros c Hc; by apply Hy).
  rewrite re_sub_punctuation_fixed
    by (intros c Hc%strip_elem; by apply Hy).
  rewrite replace_hyphen_fixed by (intros c Hc%strip_elem; by apply Hy).
  done.
Qed.

(** C8, as stated, fails, and not through a run of spaces: [-a] holds no
    space at all, its normal form [ a] no two adjacent ones, and
    normalising [ a] gives [a]. *)
Lemma normalize_string_not_idempotent :
  double_space hyphen_a = false
  /\ normalize_string hyphen_a = lit " a"
  /\ double_space (normalize_string hyphen_a) = false
  /\ normalize_string (normalize_string hyphen_a) = lit "a"
  /\ normalize_string (normalize_string hyphen_a) <> normalize_string hyphen_a.
Proof. repeat split; try (vm_compute; reflexivity). vm_compute. discriminate. Qed.

(** C8, amended.  [normalize_string (normalize_string x) =
    normalize_string x] for every [x] whose normal form has no white
    space at either end and no two adjacent spaces. *)
Theorem normalize_string_idempotent (text : str) :
  outer is_space (normalize_string text) = false ->
  double_space (normalize_string text) = false ->
  normalize_string (normalize_string text) = normalize_string text.
Proof.
  intros Houter Hdouble. rewrite normalize_string_again.
  rewrite strip_fixed by done. by apply replace_two_spaces_fixed.
Qed.

Lemma normalize_string_idempotent_witness :
  outer is_space (normalize_string for_god) = false
  /\ double_space (normalize_string for_god) = false
  /\ normalize_string (normalize_string for_god) = normalize_string for_god.
Proof.
  split; [vm_compute; reflexivity|]. split; [vm_compute; reflexivity|].
  apply (normalize_string_idempotent for_god); vm_compute; reflexivity.
Defined.

(** X30.  The two conditions are also necessary: when normalising a
    normalised text changes nothing, that text has no white space at
    either end and no two adjacent spaces. *)
Lemma normal_form_fixed_only_if (text : str) :
  normalize_string (normalize_string text) = normalize_string text ->
  outer is_space (normalize_string text) = false
  /\ double_space (normalize_string text) = false.
Proof.
  rewrite normalize_string_again. set (y := normalize_string text). intros H.
  pose proof (proj1 (replace_two_spaces_shorter (strip y))) as Hle.
  destruct (strip_shorter y) as [Hs | Hs].
  - split; [rewrite <- Hs; apply strip_outer|].
    rewrite Hs in H. apply not_true_is_false. intros Hd.
    apply (proj2 (replace_two_spaces_shorter y)) in Hd. rewrite H in Hd. lia.
  - rewrite H in Hle. lia.
Qed.

(** X29.  Whatever the text, normalising twice yields the same tokens
    as normalising once. *)
Lemma tokens_idempotent (text : str) :
  split (normalize_string (normalize_string text))
  = split (normalize_string text).
Proof.
  rewrite normalize_string_again. unfold split at 1.
  rewrite split_replace_two_spaces. apply split_strip.
Qed.

(** C9, as stated, fails: [-a] becomes [ a], with a leading space, where
    the order of the specification (trimming last) gives [a]. *)
Lemma normalize_string_leading_space :
  normalize_string hyphen_a = lit " a"
  /\ outer is_space (normalize_string hyphen_a) = true
  /\ Spec.normalize hyphen_a = lit "a"
  /\ normalize_string hyphen_a <> Spec.normalize hyphen_a.
Proof. repeat split; try (vm_compute; reflexivity). vm_compute. discriminate. Qed.

(** C9, amended.  [normalize_string] applies, in this order: lower-case
    the whole text; trim leading and trailing white space; strip the
    punctuation class; replace hyphens with spaces; collapse the
    two-space sequence in a single pass.  The result has no leading or
    trailing white space whenever the lower-cased, trimmed text neither
    begins nor ends with a hyphen or a character of the class. *)
Theorem normalize_string_steps (text : str) :
  normalize_string text
  = replace_two_spaces
      (replace_hyphen (re_sub_punctuation (strip (lower text))))
  /\ (outer is_stripped (strip (lower text)) = false ->
      outer is_space (normalize_string text) = false).
Proof.
  split; [reflexivity|].
  unfold normalize_string. set (y := strip (lower text)).
  intros [Hhead Hlast]%outer_false.
  destruct (proj1 (outer_false is_space y) (strip_outer (lower text)))
    as [Shead Slast].
  apply outer_false. split; intros c Hc.
  - destruct (head y) as [a|] eqn:Ha.
    + rewrite (steps_head y a Ha (Shead a eq_refl) (Hhead a eq_refl)) in Hc.
      injection Hc as <-. by apply Shead.
    + apply head_None in Ha. by rewrite Ha in Hc.
  - destruct (last y) as [a|] eqn:Ha.
    + rewrite (steps_last y a Ha (Slast a eq_refl) (Hlast a eq_refl)) in Hc.
      injection Hc as <-. by apply Slast.
    + apply last_None in Ha. by rewrite Ha in Hc.
Qed.

Lemma normalize_string_steps_witness :
  outer is_stripped (strip (lower (lit " For-God "))) = false
  /\ outer is_space (normalize_string (lit " For-God ")) = false.
Proof.
  split; [vm_compute; reflexivity|].
  apply (proj2 (normalize_string_steps (lit " For-God "))).
  vm_compute; reflexivity.
Defined.

Example normalize_verse :
  normalize_string for_god = lit "for god so loved the world that he gave"
  /\ normalize_string (lit "a   b") = lit "a  b"
  /\ normalize_string (lit "a - b") = lit "a  b"
  /\ split (normalize_string (lit "For  God, so")) = [lit "for"; lit "god"; lit "so"].
Proof. repeat split; vm_compute; reflexivity. Qed.


(* ===================================================================== *)
(** * Further properties *)
(* ===================================================================== *)

(** ** Alignment *)

Lemma flat_map_nil {A B} (f : A -> list B) (l : list A) :
  flat_map f l = [] <-> Forall (fun x => f x = []) l.
Proof.
  induction l as [|x l IH]; simpl.
  - split; [constructor | done].
  - rewrite Forall_cons, <- IH. split.
    + by intros [? ?]%app_eq_nil.
    + by intros [-> ->].
Qed.

Lemma flat_map_singletons {A B} (f : A -> list B) (g : A -> B) (l : list A) :
  Forall (fun x => f x = [g x]) l -> flat_map f l = map g l.
Proof. induction 1 as [|x l Hx _ IH]; simpl; [done|]. by rewrite Hx, IH. Qed.

Section AlignmentFacts.

Context (attempt_id : nat) (user_words correct_words : list str).

Lemma discrepancy_at_agree (i : nat) :
  user_words !! i = correct_words !! i ->
  Spec.discrepancy_at attempt_id user_words correct_words i = [].
Proof.
  unfold Spec.discrepancy_at. intros ->.
  destruct (correct_words !! i) as [e|]; [|done]. by rewrite decide_True.
Qed.

Lemma discrepancy_at_nil (i : nat) :
  (i < length correct_words)%nat ->
  Spec.discrepancy_at attempt_id user_words correct_words i = [] ->
  user_words !! i = correct_words !! i.
Proof.
  unfold Spec.discrepancy_at. intros [e ->]%lookup_lt_is_Some.
  destruct (user_words !! i) as [a|]; [|done].
  destruct (decide (a = e)) as [->|]; done.
Qed.

Lemma discrepancy_at_missing (i : nat) :
  (i < length correct_words)%nat -> user_words !! i = None ->
  verdict <$> Spec.discrepancy_at attempt_id user_words correct_words i
  = [(missing_word, i, correct_words !! i, None)].
Proof.
  unfold Spec.discrepancy_at. intros [e ->]%lookup_lt_is_Some ->. done.
Qed.

Lemma extra_words_positions :
  RecitationError.position
    <$> Spec.extra_words attempt_id user_words correct_words
  = seq (length correct_words) (length user_words - length correct_words).
Proof.
  unfold Spec.extra_words. apply list_eq. intros k.
  rewrite list_lookup_fmap, list_lookup_imap, lookup_drop.
  destruct (decide (k < length user_words - length correct_words)%nat).
  - rewrite lookup_seq_lt by lia.
    destruct (lookup_lt_is_Some_2 user_words (length correct_words + k))
      as [w ->]; [lia | done].
  - rewrite lookup_seq_ge by lia.
    by rewrite (proj2 (lookup_ge_None user_words _)) by lia.
Qed.

Lemma discrepancy_positions (l : list nat) :
  (RecitationError.position
     <$> flat_map (Spec.discrepancy_at attempt_id user_words correct_words) l)
  `sublist_of` l.
Proof.
  induction l as [|i l IH]; simpl; [done|]. rewrite fmap_app.
  unfold Spec.discrepancy_at at 1.
  destruct (correct_words !! i) as [e|]; [|by apply sublist_cons].
  destruct (user_words !! i) as [a|].
  - destruct (decide (a = e)); [by apply sublist_cons | by apply sublist_skip].
  - by apply sublist_skip.
Qed.

Lemma discrepancy_well_formed (i : nat) :
  Forall (fun e => RecitationError.attempt_id e = attempt_id /\ well_formed e)
         (Spec.discrepancy_at attempt_id user_words correct_words i).
Proof.
  unfold Spec.discrepancy_at.
  destruct (correct_words !! i) as [e|]; [|done].
  destruct (user_words !! i) as [a|].
  - destruct (decide (a = e)); [done|].
    repeat constructor; simpl; [by eexists..|congruence].
  - repeat constructor; by eexists.
Qed.

Lemma extra_words_well_formed :
  Forall (fun e => RecitationError.attempt_id e = attempt_id /\ well_formed e)
         (Spec.extra_words attempt_id user_words correct_words).
Proof.
  unfold Spec.extra_words. apply Forall_forall. intros e He.
  apply list_elem_of_lookup in He as [k Hk].
  rewrite list_lookup_imap in Hk.
  destruct (drop _ _ !! k) as [w|]; [|done]. injection Hk as <-.
  repeat split; by eexists.
Qed.

End AlignmentFacts.

Lemma align_identical (attempt_id : nat) (words : list str) :
  Spec.align attempt_id words words = [].
Proof.
  unfold Spec.align, Spec.extra_words. rewrite drop_all. simpl.
  rewrite app_nil_r. apply flat_map_nil, Forall_forall. intros i _.
  by apply discrepancy_at_agree.
Qed.

(** X1.  Alignment adds no row exactly when the submitted tokens are the
    reference tokens. *)
Theorem align_words_silent_iff_equal (attempt_id : nat)
    (user_words correct_words : list str) (errors : list RecitationError.t) :
  align_words attempt_id user_words correct_words errors = errors
  <-> user_words = correct_words.
Proof.
  rewrite align_words_spec. split.
  - intros H. rewrite <- (app_nil_r errors) in H at 2.
    apply app_inv_head, app_eq_nil in H as [Hdiff Hextra].
    assert (Hlen : (length user_words <= length correct_words)%nat).
    { apply (f_equal length) in Hextra. unfold Spec.extra_words in Hextra.
      rewrite length_imap, length_drop in Hextra. simpl in Hextra. lia. }
    rewrite flat_map_nil, Forall_forall in Hdiff.
    apply list_eq. intros i.
    destruct (decide (i < length correct_words)%nat) as [Hi|Hi].
    + apply (discrepancy_at_nil attempt_id); [done|].
      apply Hdiff, elem_of_seq. lia.
    + rewrite !(proj2 (lookup_ge_None _ _)) by lia. done.
  - intros ->. by rewrite align_identical, app_nil_r.
Qed.

Lemma align_words_silent_iff_equal_witness :
  world_reference = world_reference
  /\ align_words 1 world_reference world_reference [] = [].
Proof.
  split; [reflexivity|].
  apply (proj2 (align_words_silent_iff_equal 1 world_reference
                  world_reference [])).
  reflexivity.
Defined.

Lemma missing_tail (attempt_id n : nat) (correct_words : list str) :
  forall k m : nat,
    (n <= m)%nat -> (m + k <= length correct_words)%nat ->
    verdict
      <$> flat_map
            (Spec.discrepancy_at attempt_id (take n correct_words)
               correct_words) (seq m k)
    = (fun i => (missing_word, i, correct_words !! i, None)) <$> seq m k.
Proof.
  induction k as [|k IH]; intros m Hn Hm; simpl; [done|].
  rewrite fmap_app, IH by lia.
  rewrite discrepancy_at_missing; [done | lia | apply lookup_take_ge; lia].
Qed.

(** X2.  When the submission is the first [n] tokens of the reference,
    the rows added are one missing_word per remaining reference token,
    at positions [n] to the end, each expecting the reference token and
    with no actual token. *)
Theorem align_words_truncated (attempt_id n : nat)
    (correct_words : list str) (errors : list RecitationError.t) :
  exists rows : list RecitationError.t,
    align_words attempt_id (take n correct_words) correct_words errors
    = errors ++ rows
    /\ verdict <$> rows
       = (fun i => (missing_word, i, correct_words !! i, None))
           <$> seq n (length correct_words - n).
Proof.
  eexists. split; [apply align_words_spec|].
  unfold Spec.align, Spec.extra_words.
  rewrite drop_ge by (rewrite length_take; lia). simpl. rewrite app_nil_r.
  assert (Hsame : forall k : nat, (k <= n)%nat ->
            flat_map
              (Spec.discrepancy_at attempt_id (take n correct_words)
                 correct_words) (seq 0 k) = []).
  { intros k Hk. apply flat_map_nil, Forall_forall.
    intros i [_ Hi]%elem_of_seq.
    apply discrepancy_at_agree, lookup_take_lt. lia. }
  destruct (decide (n <= length correct_words)%nat) as [Hn|Hn].
  - replace (length correct_words) with (n + (length correct_words - n))%nat
      at 1 by lia.
    rewrite seq_app, flat_map_app, Hsame by lia. simpl.
    apply missing_tail; lia.
  - replace (length correct_words - n)%nat with 0%nat by lia.
    by rewrite Hsame by lia.
Qed.

(** X3.  When the submission is the reference followed by further
    tokens, the rows added are one extra_word per further token, at the
    positions following the reference, with the token as actual word and
    no expected word. *)
Theorem align_words_extended (attempt_id : nat)
    (correct_words more : list str) (errors : list RecitationError.t) :
  exists rows : list RecitationError.t,
    align_words attempt_id (correct_words ++ more) correct_words errors
    = errors ++ rows
    /\ verdict <$> rows
       = imap (fun k w => (extra_word, (length correct_words + k)%nat,
                           None, Some w)) more.
Proof.
  eexists. split; [apply align_words_spec|].
  unfold Spec.align.
  rewrite (proj2 (flat_map_nil _ _)).
  - unfold Spec.extra_words. rewrite drop_app_length. simpl.
    by rewrite fmap_imap.
  - apply Forall_forall. intros i [_ Hi]%elem_of_seq.
    apply discrepancy_at_agree, lookup_app_l. lia.
Qed.

(** X4.  Alignment only appends: the table it is given stays as a prefix.
    The rows it adds all carry the attempt id, and their positions run
    strictly upwards through 0 .. max(len(user_words), len(correct_words))
    - 1 without repetition, so there are at most that many rows. *)
Theorem align_words_appends (attempt_id : nat)
    (user_words correct_words : list str) (errors : list RecitationError.t) :
  exists rows : list RecitationError.t,
    align_words attempt_id user_words correct_words errors = errors ++ rows
    /\ Forall (fun e => RecitationError.attempt_id e = attempt_id) rows
    /\ (RecitationError.position <$> rows)
       `sublist_of` seq 0 (Nat.max (length user_words) (length correct_words))
    /\ (length rows
        <= Nat.max (length user_words) (length correct_words))%nat.
Proof.
  eexists. split; [apply align_words_spec|].
  assert (Hsub : (RecitationError.position
                    <$> Spec.align attempt_id user_words correct_words)
                 `sublist_of`
                 seq 0 (Nat.max (length user_words) (length correct_words))).
  { unfold Spec.align. rewrite fmap_app, extra_words_positions.
    replace (Nat.max (length user_words) (length correct_words))
      with (length correct_words
            + (length user_words - length correct_words))%nat by lia.
    rewrite seq_app. apply sublist_app; [|done].
    apply discrepancy_positions. }
  split; [|split; [done|]].
  - unfold Spec.align. apply Forall_app. split.
    + apply Forall_flat_map, Forall_forall. intros i _.
      eapply Forall_impl; [apply discrepancy_well_formed|]. by intros e [? _].
    + eapply Forall_impl; [apply extra_words_well_formed|]. by intros e [? _].
  - apply sublist_length in Hsub.
    by rewrite length_fmap, length_seq in Hsub.
Qed.

(** X5.  Every row alignment adds has the fields of its kind: a
    missing_word has an expected word and no actual word, a wrong_word
    has both and they differ, an extra_word has an actual word, no
    expected word and an empty context_after. *)
Theorem align_words_well_formed (attempt_id : nat)
    (user_words correct_words : list str) :
  Forall well_formed (align_words attempt_id user_words correct_words []).
Proof.
  rewrite align_words_spec. simpl. unfold Spec.align.
  apply Forall_app. split.
  - apply Forall_flat_map, Forall_forall. intros i _.
    eapply Forall_impl; [apply discrepancy_well_formed|]. by intros e [_ ?].
  - eapply Forall_impl; [apply extra_words_well_formed|]. by intros e [_ ?].
Qed.

(** X6.  A reference text that is not empty but yields no token (only
    punctuation, say) passes the guard: every submitted token is then
    stored as an extra_word, at positions 0, 1, ..., with empty context
    on both sides. *)
Theorem process_recitation_errors_no_reference_tokens (d : database)
    (attempt_id : nat) (user_text correct_text : str) :
  correct_text <> [] ->
  split (normalize_string correct_text) = [] ->
  recitation_errors
    (process_recitation_errors d attempt_id user_text correct_text)
  = recitation_errors d
    ++ imap (fun k w =>
               RecitationError.mk attempt_id extra_word k None (Some w) [] [])
            (split (normalize_string user_text)).
Proof.
  intros Hne Hnone. rewrite process_recitation_errors_align by done.
  by rewrite Hnone.
Qed.

Lemma process_recitation_errors_no_reference_tokens_witness :
  lit "..." <> []
  /\ split (normalize_string (lit "...")) = []
  /\ recitation_errors
       (process_recitation_errors empty_db 1 (lit "for god") (lit "..."))
     = recitation_errors empty_db
       ++ imap (fun k w =>
                  RecitationError.mk 1 extra_word k None (Some w) [] [])
               (split (normalize_string (lit "for god"))).
Proof.
  split; [discriminate|]. split; [vm_compute; reflexivity|].
  apply (process_recitation_errors_no_reference_tokens empty_db 1
           (lit "for god") (lit "..."));
    [discriminate | vm_compute; reflexivity].
Defined.

(** X7.  Letter case is never an error: when the recitation and the
    reference differ only in case, no row is stored. *)
Theorem process_recitation_errors_ignores_case (d : database)
    (attempt_id : nat) (user_text correct_text : str) :
  lower user_text = lower correct_text ->
  recitation_errors
    (process_recitation_errors d attempt_id user_text correct_text)
  = recitation_errors d.
Proof.
  intros Hcase. destruct (decide (correct_text = [])) as [->|Hne]; [done|].
  rewrite process_recitation_errors_align by done.
  unfold normalize_string. rewrite Hcase.
  by rewrite align_identical, app_nil_r.
Qed.

Lemma process_recitation_errors_ignores_case_witness :
  lower (lit "For God so Loved") = lower (lit "for GOD so loved")
  /\ recitation_errors
       (process_recitation_errors empty_db 1 (lit "For God so Loved")
          (lit "for GOD so loved"))
     = recitation_errors empty_db.
Proof.
  split; [vm_compute; reflexivity|].
  apply (process_recitation_errors_ignores_case empty_db 1
           (lit "For God so Loved") (lit "for GOD so loved")).
  vm_compute; reflexivity.
Defined.

(** ** Tokens *)

Lemma split_from_tokens (s : str) :
  forall (word w : str),
    Forall (fun c => is_space c = false) word ->
    w ∈ split_from word s ->
    is_token w /\ forall c, c ∈ w -> c ∈ word \/ c ∈ s.
Proof.
  induction s as [|a r IH]; intros word w Hword Hw.
  - destruct word as [|b word]; [by apply elem_of_nil in Hw|].
    apply list_elem_of_singleton in Hw as ->.
    split; [by split | by left].
  - simpl in Hw. destruct (is_space a) eqn:Ha.
    + assert (Hrest : w ∈ split_from [] r ->
                is_token w /\ forall c, c ∈ w -> c ∈ word \/ c ∈ a :: r).
      { intros H. destruct (IH [] w (Forall_nil_2 _) H) as [Ht Hc].
        split; [done|]. intros c Hcw.
        destruct (Hc c Hcw) as [H0|H0]; [by apply elem_of_nil in H0|].
        right. by right. }
      destruct word as [|b word]; [by apply Hrest|].
      apply elem_of_cons in Hw as [->|Hw]; [|by apply Hrest].
      split; [by split | by left].
    + destruct (IH (word ++ [a]) w) as [Ht Hc]; [|done|].
      { apply Forall_app. split; [done | by constructor]. }
      split; [done|]. intros c Hcw.
      destruct (Hc c Hcw) as [[H0|H0%list_elem_of_singleton]%elem_of_app|H0];
        [by left | subst; right; by left | right; by right].
Qed.

(** X8.  Every token of a normalised text is non-empty and holds no
    white space, no upper-case letter, no character of the punctuation
    class and no hyphen. *)
Theorem tokens_clean (text : str) (i : nat) (w : str) :
  split (normalize_string text) !! i = Some w ->
  is_token w
  /\ Forall (fun c => lower_char c = c /\ is_punctuation c = false
                      /\ c <> hyphen) w.
Proof.
  intros Hw. apply list_elem_of_lookup_2 in Hw.
  destruct (split_from_tokens _ [] w (Forall_nil_2 _) Hw) as [Ht Hc].
  split; [done|]. apply Forall_forall. intros c Hcw.
  destruct (Hc c Hcw) as [H0|H0]; [by apply elem_of_nil in H0|].
  by apply (normalize_string_chars text).
Qed.

Lemma tokens_clean_witness :
  split (normalize_string for_god) !! 2%nat = Some (lit "so")
  /\ is_token (lit "so")
  /\ Forall (fun c => lower_char c = c /\ is_punctuation c = false
                      /\ c <> hyphen) (lit "so").
Proof.
  split; [vm_compute; reflexivity|].
  apply (tokens_clean for_god 2 (lit "so")). vm_compute; reflexivity.
Defined.

Lemma split_from_word (w : str) :
  forall (word s : str),
    Forall (fun c => is_space c = false) w ->
    split_from word (w ++ s) = split_from (word ++ w) s.
Proof.
  induction w as [|a w IH]; intros word s Hw; simpl.
  - by rewrite app_nil_r.
  - apply Forall_cons in Hw as [Ha Hw]. rewrite Ha, IH by done.
    by rewrite <- app_assoc.
Qed.

(** X9.  Joining tokens with single spaces and splitting again gives the
    tokens back, so a context field can be read back into the words it
    was built from. *)
Theorem split_join (words : list str) :
  Forall is_token words -> split (join [space] words) = words.
Proof.
  unfold split. induction 1 as [|w rest [Hne Hw] Hrest IH]; [done|].
  cbn [join]. destruct rest as [|r rest].
  - rewrite <- (app_nil_r w) at 1. rewrite split_from_word by done.
    simpl. by destruct w.
  - rewrite split_from_word by done. cbn [app split_from].
    change (is_space space) with true. cbv iota. rewrite IH.
    by destruct w.
Qed.

Lemma split_join_witness :
  Forall is_token world_reference
  /\ split (join [space] world_reference) = world_reference.
Proof.
  split; [|apply (split_join world_reference)];
    repeat constructor; discriminate.
Defined.

Lemma normal_form_fixed_only_if_witness :
  normalize_string (normalize_string for_god) = normalize_string for_god
  /\ outer is_space (normalize_string for_god) = false
  /\ double_space (normalize_string for_god) = false.
Proof.
  split; [vm_compute; reflexivity|].
  apply (normal_form_fixed_only_if for_god). vm_compute; reflexivity.
Defined.

(** ** The handler, step by step *)

Lemma process_recitation_errors_users_verses (d : database)
    (attempt_id : nat) (user_text correct_text : str) :
  let d' := process_recitation_errors d attempt_id user_text correct_text in
  users d' = users d /\ verses d' = verses d.
Proof. unfold process_recitation_errors. by destruct correct_text. Qed.

(** What one accepted submission stores: an attempt with the fields of
    the payload, and the row of a first attempt when the pair had none. *)
Lemma submit_recitation_stored (now : time) (req : request) (w : world)
    (verseId : Z) (recitation : str) (score : Q) :
  Payload.verseId (data req) = Some verseId ->
  Payload.recitation (data req) = Some recitation ->
  Payload.score (data req) = Some score ->
  exists a : Attempt.t,
    Attempt.verse_id a = verseId
    /\ Attempt.score a = score
    /\ Attempt.is_passing a = Qgeb score 90
    /\ recitation_attempts (db (submit_recitation now req w).1)
       = recitation_attempts (db w) ++ [a]
    /\ student_progress (db (submit_recitation now req w).1)
       = match student_progress (db w) !! (Attempt.student_id a, verseId) with
         | Some _ => student_progress (db w)
         | None =>
             <[(Attempt.student_id a, verseId) :=
                 first_row now score (Qgeb score 90)]>
               (student_progress (db w))
         end.
Proof.
  intros Hv Hr Hs.
  eexists. split; [|split; [|split; [|split]]];
    [| | |by apply (submit_recitation_attempts now req w verseId recitation
                      score Hv Hr Hs)|]; [done..|].
  cbn [Attempt.student_id].
  rewrite (submit_recitation_accepted now req w verseId recitation score
             Hv Hr Hs). cbv zeta.
  destruct (acting_user_frame now req w
              (default (lit "Anonymous") (Payload.studentName (data req))))
    as (_ & _ & _ & Hp).
  set (au := acting_user now req w _) in *. rewrite Hp.
  destruct (student_progress (db w) !! (au.2, verseId)) as [current|] eqn:H.
  - cbn [fst db student_progress set_recitation_attempts]. exact Hp.
  - cbn [fst db]. rewrite <- Hp.
    match goal with
    | |- context [process_recitation_errors ?d ?a ?u ?c] =>
        destruct (process_recitation_errors_frame d a u c) as [_ Hq]
    end.
    by destruct (bool_decide _); rewrite ?Hq.
Qed.

(** ** The progress row and the attempts behind it *)

Lemma pair_attempts_snoc (d d' : database) (a : Attempt.t) (s v : Z) :
  recitation_attempts d' = recitation_attempts d ++ [a] ->
  pair_attempts d' s v
  = pair_attempts d s v
    ++ (if decide ((Attempt.student_id a, Attempt.verse_id a) = (s, v))
        then [a] else []).
Proof.
  intros H. unfold pair_attempts. rewrite H, filter_app. f_equal.
  case_decide as Hkey.
  - injection Hkey as <- <-. by rewrite filter_cons_True.
  - rewrite filter_cons_False; [done|]. intros [<- <-]. done.
Qed.

(** X10.  Each progress row is the record of the first attempt stored for
    its (student, verse) pair, and [submit_recitation] keeps it so: there
    is no row without attempts, and a row counts one attempt and holds the
    score and the pass flag of the oldest attempt of the pair, however
    many attempts have been stored since. *)
Theorem submit_recitation_tracks (now : time) (req : request) (w : world)
    (s v : Z) :
  tracks (db w) s v -> tracks (db (submit_recitation now req w).1) s v.
Proof.
  intros H.
  destruct (payload_fields req) as [Hnone | (vid & r & sc & Hv & Hr & Hs)].
  { by rewrite submit_recitation_rejected. }
  destruct (submit_recitation_stored now req w vid r sc Hv Hr Hs)
    as (a & Hav & Has & Hap & Hatt & Hprog).
  unfold tracks in *.
  rewrite (pair_attempts_snoc (db w) _ a s v Hatt), Hprog, Hav.
  destruct (decide ((Attempt.student_id a, vid) = (s, v))) as [Hkey|Hkey].
  - rewrite Hkey.
    destruct (student_progress (db w) !! (s, v)) as [p|] eqn:Hp.
    + rewrite Hp. destruct H as (first & Hhead & Hrest).
      exists first. split; [|exact Hrest].
      destruct (pair_attempts (db w) s v); [done|exact Hhead].
    + rewrite lookup_insert_eq, H. exists a.
      cbn [app head first_row Progress.total_attempts Progress.best_score
           Progress.latest_score Progress.average_score Progress.is_memorized
           Progress.improvement_trend].
      rewrite Has, Hap. by repeat split.
  - rewrite app_nil_r.
    destruct (student_progress (db w) !! (Attempt.student_id a, vid));
      [exact H|].
    by rewrite lookup_insert_ne.
Qed.

Lemma submit_recitation_tracks_witness :
  tracks (db (mkworld after_first None)) 7 3
  /\ tracks (db (submit_recitation 2 without_diff (mkworld after_first None)).1)
       7 3.
Proof.
  assert (H : tracks (db (mkworld after_first None)) 7 3).
  { unfold tracks.
    replace (student_progress (db (mkworld after_first None)) !! (7, 3))
      with (Some row_95) by (vm_compute; reflexivity).
    eexists. split; [vm_compute; reflexivity|]. by repeat split. }
  split; [exact H|].
  apply (submit_recitation_tracks 2 without_diff (mkworld after_first None)
           7 3).
  exact H.
Defined.

(** An invariant of the progress table that holds before the handler and
    is kept by the insertion of a first row holds after the handler. *)
Lemma submit_recitation_progress_ind (P : gmap (Z * Z) Progress.t -> Prop)
    (now : time) (req : request) (w : world) :
  P (student_progress (db w)) ->
  (forall (s v : Z) (score : Q),
      student_progress (db w) !! (s, v) = None ->
      P (<[(s, v) := first_row now score (Qgeb score 90)]>
           (student_progress (db w)))) ->
  P (student_progress (db (submit_recitation now req w).1)).
Proof.
  intros H0 H1.
  destruct (submit_recitation_progress now req w)
    as [-> | (s & v & sc & _ & Hnone & ->)]; auto.
Qed.

(** A row that is there stays as it is. *)
Lemma submit_recitation_row_kept (now : time) (req : request) (w : world)
    (key : Z * Z) (p : Progress.t) :
  student_progress (db w) !! key = Some p ->
  student_progress (db (submit_recitation now req w).1) !! key = Some p.
Proof.
  intros Hp. apply submit_recitation_progress_ind; [done|].
  intros s v sc Hnone. rewrite lookup_insert_ne; [done|]. congruence.
Qed.

(** X11.  [submit_recitation] never deletes a progress row, and in no row
    does total_attempts or best_score go down. *)
Theorem progress_rows_only_grow (now : time) (req : request) (w : world)
    (key : Z * Z) (p : Progress.t) :
  student_progress (db w) !! key = Some p ->
  exists p' : Progress.t,
    student_progress (db (submit_recitation now req w).1) !! key = Some p'
    /\ (Progress.total_attempts p <= Progress.total_attempts p')%nat
    /\ (Progress.best_score p <= Progress.best_score p')%Q.
Proof.
  intros Hp. exists p.
  split; [by apply submit_recitation_row_kept|].
  split; [lia | apply Qle_refl].
Qed.

Lemma progress_rows_only_grow_witness :
  student_progress (db (mkworld after_first None)) !! (7, 3)
  = Some (Progress.mk 1 95 (Some 95%Q) true (Some 1) 1 (Some 95%Q) stable)
  /\ exists p' : Progress.t,
       student_progress
         (db (submit_recitation 2 without_diff (mkworld after_first None)).1)
       !! (7, 3) = Some p'
       /\ (1 <= Progress.total_attempts p')%nat
       /\ (95 <= Progress.best_score p')%Q.
Proof.
  split; [vm_compute; reflexivity|].
  apply (progress_rows_only_grow 2 without_diff (mkworld after_first None)
           (7, 3)
           (Progress.mk 1 95 (Some 95%Q) true (Some 1) 1 (Some 95%Q) stable)).
  vm_compute; reflexivity.
Defined.

(** X12.  A submission of a known user for a pair that already has a
    progress row is stored and then fails: the attempt is appended,
    nothing else in the database or the session changes (no progress
    update, no error rows, even with a [diff] key and a reference text),
    and the request ends with the [TypeError] instead of an answer. *)
Theorem repeat_submission_fails (now : time) (req : request) (w : world)
    (user_id verseId : Z) :
  (exists name, current_user req = Some (user_id, name))
  \/ (current_user req = None /\ anonymous_user_id w = Some user_id) ->
  Payload.verseId (data req) = Some verseId ->
  is_Some (Payload.recitation (data req)) ->
  is_Some (Payload.score (data req)) ->
  is_Some (student_progress (db w) !! (user_id, verseId)) ->
  exists a : Attempt.t,
    submit_recitation now req w
    = (mkworld
         (set_recitation_attempts (db w) (recitation_attempts (db w) ++ [a]))
         (anonymous_user_id w),
       failed TypeError)
    /\ Attempt.student_id a = user_id
    /\ Attempt.verse_id a = verseId
    /\ Some (Attempt.recitation a) = Payload.recitation (data req)
    /\ Some (Attempt.score a) = Payload.score (data req).
Proof.
  intros Hknown Hv [r Hr] [sc Hs] [p Hp].
  rewrite (submit_recitation_accepted now req w verseId r sc Hv Hr Hs).
  cbv zeta.
  assert (Hau : acting_user now req w
                  (default (lit "Anonymous") (Payload.studentName (data req)))
                = (w, user_id)).
  { unfold acting_user. by destruct Hknown as [[name ->] | [-> ->]]. }
  rewrite Hau. cbn [fst snd]. rewrite Hp, Hr, Hs.
  eexists. split; [reflexivity|]. done.
Qed.

Lemma repeat_submission_fails_witness :
  ((exists name, current_user with_diff_known = Some (7, name))
   \/ (current_user with_diff_known = None
       /\ anonymous_user_id (mkworld after_first None) = Some 7))
  /\ is_Some (student_progress (db (mkworld after_first None)) !! (7, 3))
  /\ exists a : Attempt.t,
       submit_recitation 2 with_diff_known (mkworld after_first None)
       = (mkworld
            (set_recitation_attempts (db (mkworld after_first None))
               (recitation_attempts (db (mkworld after_first None)) ++ [a]))
            (anonymous_user_id (mkworld after_first None)),
          failed TypeError)
       /\ Attempt.student_id a = 7
       /\ Attempt.verse_id a = 3
       /\ Some (Attempt.recitation a)
          = Payload.recitation (data with_diff_known)
       /\ Some (Attempt.score a) = Payload.score (data with_diff_known).
Proof.
  split; [left; by eexists|].
  split; [vm_compute; by eexists|].
  apply (repeat_submission_fails 2 with_diff_known (mkworld after_first None)
           7 3); [left; by eexists | reflexivity | by eexists | by eexists|].
  vm_compute; by eexists.
Defined.

(** X13.  For a known user and a payload with the required fields, the
    progress row of the pair decides how the request ends: with success
    and the row id of the new attempt exactly when the pair had no row,
    with the [TypeError] exactly when it had one. *)
Theorem answer_by_progress_row (now : time) (req : request) (w : world)
    (user_id verseId : Z) :
  (exists name, current_user req = Some (user_id, name))
  \/ (current_user req = None /\ anonymous_user_id w = Some user_id) ->
  Payload.verseId (data req) = Some verseId ->
  is_Some (Payload.recitation (data req)) ->
  is_Some (Payload.score (data req)) ->
  ((submit_recitation now req w).2
   = success (S (length (recitation_attempts (db w))))
       (lit "Recitation saved successfully")
   <-> student_progress (db w) !! (user_id, verseId) = None)
  /\ ((submit_recitation now req w).2 = failed TypeError
      <-> is_Some (student_progress (db w) !! (user_id, verseId))).
Proof.
  intros Hknown Hv [r Hr] [sc Hs].
  rewrite (submit_recitation_accepted now req w verseId r sc Hv Hr Hs).
  cbv zeta.
  assert (Hau : acting_user now req w
                  (default (lit "Anonymous") (Payload.studentName (data req)))
                = (w, user_id)).
  { unfold acting_user. by destruct Hknown as [[name ->] | [-> ->]]. }
  rewrite Hau. cbn [fst snd].
  destruct (student_progress (db w) !! (user_id, verseId)) as [p|];
    cbn [snd]; split; split; done.
Qed.

Lemma answer_by_progress_row_witness :
  ((exists name, current_user without_diff = Some (7, name))
   \/ (current_user without_diff = None
       /\ anonymous_user_id fresh_world = Some 7))
  /\ Payload.verseId (data without_diff) = Some 3
  /\ ((submit_recitation 1 without_diff fresh_world).2
      = success (S (length (recitation_attempts (db fresh_world))))
          (lit "Recitation saved successfully")
      <-> student_progress (db fresh_world) !! (7, 3) = None)
  /\ ((submit_recitation 1 without_diff fresh_world).2 = failed TypeError
      <-> is_Some (student_progress (db fresh_world) !! (7, 3))).
Proof.
  split; [left; by eexists|]. split; [reflexivity|].
  apply (answer_by_progress_row 1 without_diff fresh_world 7 3);
    [left; by eexists | reflexivity | by eexists | by eexists].
Defined.

(** X14.  A memorized row always has its first-memorized time: if that
    holds of every row before [submit_recitation], it holds of every row
    after. *)
Theorem memorized_rows_stamped (now : time) (req : request) (w : world) :
  (forall key p, student_progress (db w) !! key = Some p -> stamped p) ->
  forall key p,
    student_progress (db (submit_recitation now req w).1) !! key = Some p ->
    stamped p.
Proof.
  intros H. apply submit_recitation_progress_ind; [done|].
  intros s v sc _ key p.
  destruct (decide (key = (s, v))) as [->|Hkey];
    [rewrite lookup_insert_eq | rewrite lookup_insert_ne by done; apply H].
  intros [= <-]. unfold stamped, first_row. cbn. intros ->. by eexists.
Qed.

Lemma memorized_rows_stamped_witness :
  (forall key p,
      student_progress (db (mkworld after_first None)) !! key = Some p ->
      stamped p)
  /\ forall key p,
       student_progress
         (db (submit_recitation 2 without_diff (mkworld after_first None)).1)
       !! key = Some p ->
       stamped p.
Proof.
  assert (H : forall key p,
             student_progress (db (mkworld after_first None)) !! key = Some p ->
             stamped p).
  { intros key p.
    change (student_progress (db (mkworld after_first None)))
      with (student_progress after_first).
    replace (student_progress after_first)
      with ({[ (7, 3) :=
                 Progress.mk 1 95 (Some 95%Q) true (Some 1) 1 (Some 95%Q)
                   stable ]} : gmap (Z * Z) Progress.t)
      by (vm_compute; reflexivity).
    intros [_ <-]%lookup_singleton_Some _. by eexists. }
  split; [exact H|].
  apply (memorized_rows_stamped 2 without_diff (mkworld after_first None)).
  exact H.
Defined.

(** X15.  Once a row has a first-memorized time it always has one:
    [submit_recitation] never clears first_memorized_at. *)
Theorem first_memorized_at_never_cleared (now : time) (req : request)
    (w : world) (key : Z * Z) (p : Progress.t) :
  student_progress (db w) !! key = Some p ->
  is_Some (Progress.first_memorized_at p) ->
  exists p' : Progress.t,
    student_progress (db (submit_recitation now req w).1) !! key = Some p'
    /\ is_Some (Progress.first_memorized_at p').
Proof.
  intros Hp Hset. exists p. split; [|done].
  by apply submit_recitation_row_kept.
Qed.

Lemma first_memorized_at_never_cleared_witness :
  student_progress (db (mkworld after_first None)) !! (7, 3)
  = Some (Progress.mk 1 95 (Some 95%Q) true (Some 1) 1 (Some 95%Q) stable)
  /\ exists p' : Progress.t,
       student_progress
         (db (submit_recitation 2 without_diff (mkworld after_first None)).1)
       !! (7, 3) = Some p'
       /\ is_Some (Progress.first_memorized_at p').
Proof.
  split; [vm_compute; reflexivity|].
  apply (first_memorized_at_never_cleared 2 without_diff
           (mkworld after_first None) (7, 3)
           (Progress.mk 1 95 (Some 95%Q) true (Some 1) 1 (Some 95%Q) stable));
    [vm_compute; reflexivity | by eexists].
Defined.

(** X16.  One submission changes at most one progress row. *)
Theorem submit_recitation_one_row (now : time) (req : request) (w : world) :
  exists key0 : Z * Z,
    forall key : Z * Z,
      key <> key0 ->
      student_progress (db (submit_recitation now req w).1) !! key
      = student_progress (db w) !! key.
Proof.
  destruct (submit_recitation_progress now req w)
    as [-> | (s & v & sc & _ & _ & ->)].
  - by exists (0, 0).
  - exists (s, v). intros key Hkey. by rewrite lookup_insert_ne.
Qed.

(** ** What the handler stores *)

Lemma acting_user_users (now : time) (req : request) (w : world)
    (student_name : str) :
  users (db w) `prefix_of`
    users (db (acting_user now req w student_name).1).
Proof.
  unfold acting_user.
  destruct (current_user req) as [[id name]|]; [done|].
  destruct (anonymous_user_id w); [done|]. cbn. by eexists.
Qed.

Lemma acting_user_known (now : time) (req : request) (w : world)
    (student_name : str) (user_id : Z) :
  (exists name, current_user req = Some (user_id, name))
  \/ (current_user req = None /\ anonymous_user_id w = Some user_id) ->
  acting_user now req w student_name = (w, user_id).
Proof.
  unfold acting_user. intros [[name ->] | [-> ->]]; done.
Qed.

Lemma process_recitation_errors_prefix (d : database) (attempt_id : nat)
    (user_text correct_text : str) :
  exists rows : list RecitationError.t,
    recitation_errors
      (process_recitation_errors d attempt_id user_text correct_text)
    = recitation_errors d ++ rows
    /\ Forall (fun e => RecitationError.attempt_id e = attempt_id) rows.
Proof.
  destruct (decide (correct_text = [])) as [->|Hne].
  - exists []. by rewrite app_nil_r.
  - eexists. split; [by apply process_recitation_errors_align|].
    unfold Spec.align. apply Forall_app. split.
    + apply Forall_flat_map, Forall_forall. intros i _.
      eapply Forall_impl; [apply discrepancy_well_formed|]. by intros e [? _].
    + eapply Forall_impl; [apply extra_words_well_formed|]. by intros e [? _].
Qed.

(** The users, the verses and the session after an accepted submission
    are those the resolution of the acting user left. *)
Lemma submit_recitation_users (now : time) (req : request) (w : world) :
  is_Some (Payload.verseId (data req)) ->
  is_Some (Payload.recitation (data req)) ->
  is_Some (Payload.score (data req)) ->
  let au :=
    acting_user now req w
      (default (lit "Anonymous") (Payload.studentName (data req))) in
  users (db (submit_recitation now req w).1) = users (db au.1)
  /\ verses (db (submit_recitation now req w).1) = verses (db w)
  /\ anonymous_user_id (submit_recitation now req w).1
     = anonymous_user_id au.1.
Proof.
  intros [v Hv] [r Hr] [sc Hs].
  rewrite (submit_recitation_accepted now req w v r sc Hv Hr Hs). cbv zeta.
  destruct (acting_user_frame now req w
              (default (lit "Anonymous") (Payload.studentName (data req))))
    as (Hvs & _ & _ & _).
  set (au := acting_user now req w _) in *. rewrite <- Hvs.
  destruct (student_progress (db au.1) !! (au.2, v)); [done|].
  cbn [fst db anonymous_user_id].
  match goal with
  | |- context [process_recitation_errors ?d ?a ?u ?c] =>
      destruct (process_recitation_errors_users_verses d a u c) as [Pu Pv]
  end.
  by destruct (bool_decide _); rewrite ?Pu, ?Pv.
Qed.

(** The error rows after an accepted submission: those before, followed
    by rows that carry the id of the attempt just stored. *)
Lemma submit_recitation_errors (now : time) (req : request) (w : world) :
  exists rows : list RecitationError.t,
    recitation_errors (db (submit_recitation now req w).1)
    = recitation_errors (db w) ++ rows
    /\ Forall (fun e => RecitationError.attempt_id e
                        = S (length (recitation_attempts (db w)))) rows.
Proof.
  destruct (payload_fields req) as [Hnone | (v & r & sc & Hv & Hr & Hs)].
  { rewrite submit_recitation_rejected by done. exists [].
    by rewrite app_nil_r. }
  rewrite (submit_recitation_accepted now req w v r sc Hv Hr Hs). cbv zeta.
  destruct (acting_user_frame now req w
              (default (lit "Anonymous") (Payload.studentName (data req))))
    as (_ & Ha & He & _).
  set (au := acting_user now req w _) in *. rewrite <- He, <- Ha.
  destruct (student_progress (db au.1) !! (au.2, v)).
  { exists []. by rewrite app_nil_r. }
  cbn [fst db].
  match goal with
  | |- context [process_recitation_errors ?d ?a ?u ?c] =>
      destruct (process_recitation_errors_prefix d a u c) as (rows & Pe & Pid)
  end.
  destruct (bool_decide _).
  - exists rows. by rewrite Pe.
  - exists []. by rewrite app_nil_r.
Qed.

Lemma submit_recitation_frame (now : time) (req : request) (w : world) :
  users (db w) `prefix_of` users (db (submit_recitation now req w).1)
  /\ recitation_attempts (db w)
     `prefix_of` recitation_attempts (db (submit_recitation now req w).1)
  /\ recitation_errors (db w)
     `prefix_of` recitation_errors (db (submit_recitation now req w).1)
  /\ verses (db (submit_recitation now req w).1) = verses (db w).
Proof.
  destruct (submit_recitation_errors now req w) as (rows & He & _).
  rewrite He.
  destruct (payload_fields req) as [Hnone | (v & r & sc & Hv & Hr & Hs)].
  { rewrite submit_recitation_rejected by done.
    repeat split; [done | done | by eexists]. }
  rewrite (submit_recitation_attempts now req w v r sc Hv Hr Hs).
  destruct (submit_recitation_users now req w) as (Hu & Hvs & _);
    [by eexists..|].
  rewrite Hu, Hvs.
  repeat split; [apply acting_user_users | by eexists | by eexists].
Qed.

(** X17.  [submit_recitation] only appends to the users, attempts and
    errors tables (what was stored stays, in place and unchanged) and
    never touches the verses. *)
Theorem submit_recitation_appends (now : time) (req : request) (w : world) :
  users (db w) `prefix_of` users (db (submit_recitation now req w).1)
  /\ recitation_attempts (db w)
     `prefix_of` recitation_attempts (db (submit_recitation now req w).1)
  /\ recitation_errors (db w)
     `prefix_of` recitation_errors (db (submit_recitation now req w).1)
  /\ verses (db (submit_recitation now req w).1) = verses (db w).
Proof. apply submit_recitation_frame. Qed.

(** X18.  Every error row belongs to a stored attempt (its attempt_id is
    the row id of one), before and after any [submit_recitation]. *)
Theorem submit_recitation_errors_owned (now : time) (req : request)
    (w : world) :
  errors_owned (db w) -> errors_owned (db (submit_recitation now req w).1).
Proof.
  unfold errors_owned. intros H.
  destruct (payload_fields req) as [Hnone | (v & r & sc & Hv & Hr & Hs)].
  { by rewrite submit_recitation_rejected. }
  destruct (submit_recitation_errors now req w) as (rows & He & Hid).
  rewrite He, (submit_recitation_attempts now req w v r sc Hv Hr Hs),
    length_app.
  apply Forall_app. split.
  - eapply Forall_impl; [exact H|]. simpl. intros e ?. lia.
  - eapply Forall_impl; [exact Hid|]. intros e Hrow. cbv beta in *.
    rewrite Hrow. simpl. lia.
Qed.

Lemma submit_recitation_errors_owned_witness :
  errors_owned (db fresh_world)
  /\ errors_owned (db (submit_recitation 1 with_diff fresh_world).1).
Proof.
  split; [constructor|].
  apply (submit_recitation_errors_owned 1 with_diff fresh_world).
  constructor.
Defined.

(** X19.  The first submission of a client that is neither logged in nor
    holds a session id, when it carries the required fields, creates
    exactly one user (role student, first name the payload's studentName
    or Anonymous) and puts its row id into the session. *)
Theorem anonymous_first_submission (now : time) (req : request) (w : world) :
  current_user req = None ->
  anonymous_user_id w = None ->
  is_Some (Payload.verseId (data req)) ->
  is_Some (Payload.recitation (data req)) ->
  is_Some (Payload.score (data req)) ->
  users (db (submit_recitation now req w).1)
  = users (db w)
    ++ [User.mk now (lit "anonymous")
          (default (lit "Anonymous") (Payload.studentName (data req))) []
          (lit "student")]
  /\ anonymous_user_id (submit_recitation now req w).1
     = Some (Z.of_nat (S (length (users (db w))))).
Proof.
  intros Hcu Hsession Hv Hr Hs.
  destruct (submit_recitation_users now req w Hv Hr Hs) as (Hu & _ & Hid).
  rewrite Hu, Hid.
  set (name := default (lit "Anonymous") (Payload.studentName (data req))).
  assert (Hau : acting_user now req w name
                = (mkworld
                     (set_users (db w)
                        (users (db w)
                         ++ [User.mk now (lit "anonymous") name []
                               (lit "student")]))
                     (Some (Z.of_nat (S (length (users (db w)))))),
                   Z.of_nat (S (length (users (db w)))))).
  { unfold acting_user, lastrowid. rewrite Hcu, Hsession, length_app.
    simpl. by rewrite Nat.add_1_r. }
  by rewrite Hau.
Qed.

Lemma anonymous_first_submission_witness :
  current_user with_diff = None
  /\ anonymous_user_id fresh_world = None
  /\ users (db (submit_recitation 1 with_diff fresh_world).1)
     = users (db fresh_world)
       ++ [User.mk 1 (lit "anonymous") (lit "Anonymous") [] (lit "student")]
  /\ anonymous_user_id (submit_recitation 1 with_diff fresh_world).1
     = Some 1.
Proof.
  split; [reflexivity|]. split; [reflexivity|].
  apply (anonymous_first_submission 1 with_diff fresh_world);
    try reflexivity; by eexists.
Defined.

Lemma known_user_frame (now : time) (req : request) (w : world)
    (user_id : Z) :
  (exists name, current_user req = Some (user_id, name))
  \/ (current_user req = None /\ anonymous_user_id w = Some user_id) ->
  users (db (submit_recitation now req w).1) = users (db w)
  /\ anonymous_user_id (submit_recitation now req w).1 = anonymous_user_id w
  /\ forall a : Attempt.t,
       recitation_attempts (db (submit_recitation now req w).1)
       = recitation_attempts (db w) ++ [a] ->
       Attempt.student_id a = user_id.
Proof.
  intros Hknown.
  destruct (payload_fields req) as [Hnone | (v & r & sc & Hv & Hr & Hs)].
  - rewrite submit_recitation_rejected by done. cbn.
    repeat split. intros a Ha. rewrite <- (app_nil_r (recitation_attempts _))
      in Ha at 1. by apply app_inv_head in Ha.
  - destruct (submit_recitation_users now req w) as (Hu & _ & Hid);
      [by eexists..|].
    rewrite Hu, Hid.
    rewrite (submit_recitation_attempts now req w v r sc Hv Hr Hs).
    rewrite (acting_user_known now req w _ user_id Hknown).
    cbn [fst snd]. repeat split.
    intros a Ha%app_inv_head. by injection Ha as <-.
Qed.

(** X20.  A client that is logged in, or holds a session id, never
    causes a user to be created: the users table and the session stay as
    they are, and the attempt is stored under that id (the login winning
    over a session id). *)
Theorem known_user_submission (now : time) (req : request) (w : world)
    (user_id : Z) :
  (exists name, current_user req = Some (user_id, name))
  \/ (current_user req = None /\ anonymous_user_id w = Some user_id) ->
  users (db (submit_recitation now req w).1) = users (db w)
  /\ anonymous_user_id (submit_recitation now req w).1 = anonymous_user_id w
  /\ forall a : Attempt.t,
       recitation_attempts (db (submit_recitation now req w).1)
       = recitation_attempts (db w) ++ [a] ->
       Attempt.student_id a = user_id.
Proof. apply known_user_frame. Qed.

Lemma known_user_submission_witness :
  ((exists name, current_user without_diff = Some (7, name))
   \/ (current_user without_diff = None
       /\ anonymous_user_id fresh_world = Some 7))
  /\ users (db (submit_recitation 1 without_diff fresh_world).1)
     = users (db fresh_world)
  /\ anonymous_user_id (submit_recitation 1 without_diff fresh_world).1
     = anonymous_user_id fresh_world
  /\ forall a : Attempt.t,
       recitation_attempts (db (submit_recitation 1 without_diff fresh_world).1)
       = recitation_attempts (db fresh_world) ++ [a] ->
       Attempt.student_id a = 7.
Proof.
  split; [left; by eexists|].
  apply (known_user_submission 1 without_diff fresh_world 7).
  left; by eexists.
Defined.

Lemma anonymous_session_set (now : time) (req : request) (w : world) :
  current_user req = None ->
  is_Some (Payload.verseId (data req)) ->
  is_Some (Payload.recitation (data req)) ->
  is_Some (Payload.score (data req)) ->
  is_Some (anonymous_user_id (submit_recitation now req w).1).
Proof.
  intros Hcu Hv Hr Hs.
  destruct (submit_recitation_users now req w Hv Hr Hs) as (_ & _ & Hid).
  rewrite Hid. unfold acting_user. rewrite Hcu.
  destruct (anonymous_user_id w) eqn:Hsession; cbn; [|by eexists].
  rewrite Hsession. by eexists.
Qed.

(** X21.  Two submissions from one client that is not logged in create at
    most one user: after the first (with its required fields) the session
    holds an id, and the second leaves users and session as they are and
    stores its attempt under that id. *)
Theorem anonymous_session_reused (now1 now2 : time) (req1 req2 : request)
    (w : world) :
  current_user req1 = None ->
  current_user req2 = None ->
  is_Some (Payload.verseId (data req1)) ->
  is_Some (Payload.recitation (data req1)) ->
  is_Some (Payload.score (data req1)) ->
  exists user_id : Z,
    anonymous_user_id (submit_recitation now1 req1 w).1 = Some user_id
    /\ anonymous_user_id
         (submit_recitation now2 req2 (submit_recitation now1 req1 w).1).1
       = Some user_id
    /\ users
         (db (submit_recitation now2 req2 (submit_recitation now1 req1 w).1).1)
       = users (db (submit_recitation now1 req1 w).1)
    /\ forall a : Attempt.t,
         recitation_attempts
           (db (submit_recitation now2 req2
                  (submit_recitation now1 req1 w).1).1)
         = recitation_attempts (db (submit_recitation now1 req1 w).1) ++ [a] ->
         Attempt.student_id a = user_id.
Proof.
  intros H1 H2 Hv Hr Hs.
  destruct (anonymous_session_set now1 req1 w H1 Hv Hr Hs) as [id Hid].
  exists id. split; [done|].
  destruct (known_user_frame now2 req2 (submit_recitation now1 req1 w).1 id)
    as (Hu & Ha & Hst); [by right|].
  rewrite Ha. by repeat split.
Qed.

Lemma anonymous_session_reused_witness :
  current_user with_diff = None
  /\ exists user_id : Z,
       anonymous_user_id (submit_recitation 1 with_diff fresh_world).1
       = Some user_id
       /\ anonymous_user_id
            (submit_recitation 2 with_diff
               (submit_recitation 1 with_diff fresh_world).1).1
          = Some user_id
       /\ users
            (db (submit_recitation 2 with_diff
                   (submit_recitation 1 with_diff fresh_world).1).1)
          = users (db (submit_recitation 1 with_diff fresh_world).1)
       /\ forall a : Attempt.t,
            recitation_attempts
              (db (submit_recitation 2 with_diff
                     (submit_recitation 1 with_diff fresh_world).1).1)
            = recitation_attempts
                (db (submit_recitation 1 with_diff fresh_world).1) ++ [a] ->
            Attempt.student_id a = user_id.
Proof.
  split; [reflexivity|].
  apply (anonymous_session_reused 1 2 with_diff with_diff fresh_world);
    try reflexivity; by eexists.
Defined.

(** ** Attempt numbers *)

Lemma filter_none {A} (P : A -> Prop) `{forall x, Decision (P x)}
    (l : list A) :
  (forall x, x ∈ l -> ~ P x) -> filter P l = [].
Proof.
  induction l as [|x l IH]; intros Hl; [done|].
  rewrite filter_cons_False by (apply Hl; left).
  apply IH. intros y Hy. apply Hl. by right.
Qed.

Lemma submit_recitation_attempt (now : time) (req : request) (w : world)
    (user_id verseId : Z) (recitation : str) (score : Q) :
  (exists name, current_user req = Some (user_id, name))
  \/ (current_user req = None /\ anonymous_user_id w = Some user_id) ->
  Payload.verseId (data req) = Some verseId ->
  Payload.recitation (data req) = Some recitation ->
  Payload.score (data req) = Some score ->
  recitation_attempts (db (submit_recitation now req w).1)
  = recitation_attempts (db w)
    ++ [Attempt.mk user_id verseId (Payload.assignmentId (data req))
          recitation score
          (length (get_student_attempts (db w) user_id (Some verseId)) + 1)
          (Payload.timeSpentSeconds (data req))
          (default false (Payload.usedSpeechRecognition (data req)))
          (Qgeb score 90)].
Proof.
  intros Hknown Hv Hr Hs.
  rewrite (submit_recitation_attempts now req w verseId recitation score
             Hv Hr Hs).
  by rewrite (acting_user_known now req w _ user_id Hknown).
Qed.

(** X22.  Attempts are numbered from 1 per student and verse: for a verse
    that exists (and whose id is not 0), the stored attempt_number is one
    more than the number of attempts the student already has for that
    verse. *)
Theorem attempt_number_per_pair (now : time) (req : request) (w : world)
    (user_id verseId : Z) :
  (exists name, current_user req = Some (user_id, name))
  \/ (current_user req = None /\ anonymous_user_id w = Some user_id) ->
  Payload.verseId (data req) = Some verseId ->
  is_Some (Payload.recitation (data req)) ->
  is_Some (Payload.score (data req)) ->
  verseId <> 0 ->
  is_Some (verses (db w) !! verseId) ->
  exists a : Attempt.t,
    recitation_attempts (db (submit_recitation now req w).1)
    = recitation_attempts (db w) ++ [a]
    /\ Attempt.attempt_number a
       = S (length (pair_attempts (db w) user_id verseId)).
Proof.
  intros Hknown Hv [r Hr] [sc Hs] Hnz Hverse.
  eexists. split; [by apply submit_recitation_attempt|].
  cbn [Attempt.attempt_number]. unfold get_student_attempts, pair_attempts.
  rewrite length_rev, Nat.add_1_r. f_equal. f_equal.
  apply list_filter_iff. intros ra. cbn.
  rewrite (proj2 (Z.eqb_neq verseId 0)) by done. cbn. split.
  - intros (Hs' & _ & Hv'). split; [done|]. specialize (Hv' eq_refl).
    by injection Hv'.
  - intros [Hs' Hv']. rewrite Hv'. by repeat split.
Qed.

(** X23.  The numbering goes through the join with the verses table: a
    submission for a verse that does not exist (id not 0) is always
    stored with attempt_number 1, however many came before. *)
Theorem attempt_number_unknown_verse (now : time) (req : request) (w : world)
    (user_id verseId : Z) :
  (exists name, current_user req = Some (user_id, name))
  \/ (current_user req = None /\ anonymous_user_id w = Some user_id) ->
  Payload.verseId (data req) = Some verseId ->
  is_Some (Payload.recitation (data req)) ->
  is_Some (Payload.score (data req)) ->
  verseId <> 0 ->
  verses (db w) !! verseId = None ->
  exists a : Attempt.t,
    recitation_attempts (db (submit_recitation now req w).1)
    = recitation_attempts (db w) ++ [a]
    /\ Attempt.attempt_number a = 1%nat.
Proof.
  intros Hknown Hv [r Hr] [sc Hs] Hnz Hverse.
  eexists. split; [by apply submit_recitation_attempt|].
  cbn [Attempt.attempt_number]. unfold get_student_attempts.
  rewrite filter_none; [done|]. intros ra _ (_ & Hex & Hv'). cbn in Hv'.
  rewrite (proj2 (Z.eqb_neq verseId 0)) in Hv' by done.
  specialize (Hv' eq_refl). injection Hv' as Hv'.
  rewrite Hv', Hverse in Hex. by destruct Hex.
Qed.

Lemma attempt_number_per_pair_witness :
  ((exists name, current_user without_diff = Some (7, name))
   \/ (current_user without_diff = None
       /\ anonymous_user_id library_world = Some 7))
  /\ Payload.verseId (data without_diff) = Some 3
  /\ 3 <> 0
  /\ is_Some (verses (db library_world) !! 3)
  /\ exists a : Attempt.t,
       recitation_attempts (db (submit_recitation 1 without_diff
                                  library_world).1)
       = recitation_attempts (db library_world) ++ [a]
       /\ Attempt.attempt_number a
          = S (length (pair_attempts (db library_world) 7 3)).
Proof.
  split; [left; by eexists|]. split; [reflexivity|].
  split; [discriminate|]. split; [by eexists|].
  apply (attempt_number_per_pair 1 without_diff library_world 7 3);
    try reflexivity; try discriminate; try (by eexists).
  left; by eexists.
Defined.

Lemma attempt_number_unknown_verse_witness :
  ((exists name, current_user out_of_range = Some (7, name))
   \/ (current_user out_of_range = None
       /\ anonymous_user_id library_world = Some 7))
  /\ Payload.verseId (data out_of_range) = Some 999
  /\ 999 <> 0
  /\ verses (db library_world) !! 999 = None
  /\ exists a : Attempt.t,
       recitation_attempts (db (submit_recitation 1 out_of_range
                                  library_world).1)
       = recitation_attempts (db library_world) ++ [a]
       /\ Attempt.attempt_number a = 1%nat.
Proof.
  split; [left; by eexists|]. split; [reflexivity|].
  split; [discriminate|]. split; [reflexivity|].
  apply (attempt_number_unknown_verse 1 out_of_range library_world 7 999);
    try reflexivity; try discriminate; try (by eexists).
  left; by eexists.
Defined.

(** ** The summary *)


(** X24.  The three counts of the summary (verses attempted, verses
    memorized, total attempts) do not depend on the order in which the
    rows are fetched.  The two rounded numbers are left out on purpose:
    a float sum depends on the order of its terms. *)
Theorem summarize_float_counts
    (progress progress' : list (Progress.t * Verse.t)) :
  progress ≡ₚ progress' ->
  Summary64.total_verses_attempted (summarize_float progress)
  = Summary64.total_verses_attempted (summarize_float progress')
  /\ Summary64.verses_memorized (summarize_float progress)
     = Summary64.verses_memorized (summarize_float progress')
  /\ Summary64.total_attempts (summarize_float progress)
     = Summary64.total_attempts (summarize_float progress').
Proof.
  intros H. destruct progress as [|p rest].
  { by apply Permutation_nil_l in H as ->. }
  destruct progress' as [|p' rest']; [by apply Permutation_nil_r in H|].
  unfold summarize_float.
  cbn [Summary64.total_verses_attempted Summary64.verses_memorized
       Summary64.total_attempts].
  assert (Hm : filter (fun q => Progress.is_memorized q.1 = true) (p :: rest)
               ≡ₚ filter (fun q => Progress.is_memorized q.1 = true)
                    (p' :: rest')) by (by rewrite H).
  rewrite (Permutation_length H).
  rewrite (sum_list_with_Permutation_proper _ _ _ Hm).
  by rewrite (sum_list_with_Permutation_proper _ _ _ H).
Qed.

Lemma summarize_float_counts_witness :
  [progress_row 100 true; progress_row 60 false]
  ≡ₚ [progress_row 60 false; progress_row 100 true]
  /\ Summary64.total_verses_attempted
       (summarize_float [progress_row 100 true; progress_row 60 false])
     = Summary64.total_verses_attempted
         (summarize_float [progress_row 60 false; progress_row 100 true])
  /\ Summary64.verses_memorized
       (summarize_float [progress_row 100 true; progress_row 60 false])
     = Summary64.verses_memorized
         (summarize_float [progress_row 60 false; progress_row 100 true])
  /\ Summary64.total_attempts
       (summarize_float [progress_row 100 true; progress_row 60 false])
     = Summary64.total_attempts
         (summarize_float [progress_row 60 false; progress_row 100 true]).
Proof.
  split; [apply perm_swap|].
  apply (summarize_float_counts
           [progress_row 100 true; progress_row 60 false]
           [progress_row 60 false; progress_row 100 true]).
  apply perm_swap.
Defined.

(** *** In exact arithmetic *)









(** The counts are the same in both readings. *)
Lemma summarize_float_counts_exact (progress : list (Progress.t * Verse.t)) :
  Summary64.total_verses_attempted (summarize_float progress)
  = Summary.total_verses_attempted (summarize progress)
  /\ Summary64.verses_memorized (summarize_float progress)
     = Summary.verses_memorized (summarize progress)
  /\ Summary64.total_attempts (summarize_float progress)
     = Summary.total_attempts (summarize progress).
Proof. by destruct progress. Qed.










(** X28.  [RecitationAttempt.create] always stores the attempt, as the
    last row of the table and with the submitted values, the pass flag
    set exactly when the score is at least 90; the id it returns, when
    the pair had no progress row, is the row id of that attempt. *)
Theorem create_row_id (now : time) (d : database) (student_id verse_id : Z)
    (recitation : str) (score : Q) (attempt_number : nat)
    (assignment_id time_spent_seconds : option Z)
    (used_speech_recognition : bool) :
  exists is_passing : bool,
    (is_passing = true <-> (90 <= score)%Q)
    /\ recitation_attempts
         (create now d student_id verse_id recitation score attempt_number
            assignment_id time_spent_seconds used_speech_recognition).1
       = recitation_attempts d
         ++ [Attempt.mk student_id verse_id assignment_id recitation score
               attempt_number time_spent_seconds used_speech_recognition
               is_passing]
    /\ forall attempt_id : nat,
         (create now d student_id verse_id recitation score attempt_number
            assignment_id time_spent_seconds used_speech_recognition).2
         = returned attempt_id ->
         student_progress d !! (student_id, verse_id) = None
         /\ attempt_id = S (length (recitation_attempts d))
         /\ recitation_attempts
              (create now d student_id verse_id recitation score
                 attempt_number assignment_id time_spent_seconds
                 used_speech_recognition).1
            !! (attempt_id - 1)%nat
            = Some (Attempt.mk student_id verse_id assignment_id recitation
                      score attempt_number time_spent_seconds
                      used_speech_recognition is_passing).
Proof.
  exists (Qgeb score 90). split; [apply Qgeb_le|].
  destruct (create_frame now d student_id verse_id recitation score
              attempt_number assignment_id time_spent_seconds
              used_speech_recognition) as (Ha & _).
  cbv zeta in Ha. split; [exact Ha|]. intros attempt_id. rewrite Ha.
  destruct (student_progress d !! (student_id, verse_id)) as [p|] eqn:Hp.
  - by rewrite (create_existing _ _ _ _ _ _ _ _ _ _ p Hp).
  - rewrite (create_new _ _ _ _ _ _ _ _ _ _ Hp). cbn [snd].
    intros [= <-]. split; [done|]. split; [done|].
    replace (S (length (recitation_attempts d)) - 1)%nat
      with (length (recitation_attempts d) + 0)%nat by lia.
    by rewrite lookup_app_r, Nat.add_comm, Nat.add_sub by lia.
Qed.
